(** * pow-word-of-wisdom: the Hashcash codec, the PoW engine and the
      challenge step of the protocol orchestrator

    A shallow embedding of [pow/hashcash.go] and of the challenge step of
    [handler.ProofOfWork.ServeTCP]; further on, of the two connection
    handlers of package [handler], of the quote service of package
    [service] and of the listener loop of package [tcp], each as the calls
    it makes on the connection, the logger and the next handler.

    Conventions.
    - A Go [string] and a Go [[]byte] are both sequences of bytes; a byte is
      an [ascii] (eight bits), a string is a [string], a byte slice is a
      [list byte].  A slice produced by [Sum(nil)] has capacity equal to its
      length, so a slice expression past the length panics.
    - [int] and [uint] are 64 bits wide, [int64] is 64 bits wide, [uint8] is
      8 bits wide.  They are embedded in [Z] with the wrap-around written
      out.
    - A Go call either returns a value, returns an error, or panics; a loop
      without a bound is run on fuel. *)

From Stdlib Require Import ZArith List String Ascii Bool Lia.
Import ListNotations.
Local Open Scope string_scope.
Local Open Scope Z_scope.

Abbreviation byte := ascii (only parsing).

(** the value of a byte, and the byte of a value (the conversion [byte(v)]) *)
Definition byte_val (b : byte) : Z := Z.of_N (N_of_ascii b).
Definition val_byte (v : Z) : byte := ascii_of_N (Z.to_N (v mod 256)).

(** ** Outcomes of a call *)

(** The error values of [pow/hashcash.go], one constructor per message. *)
Inductive error : Type :=
| MalformedHeader                  (* "malformed header string [%s]" *)
| ConvertVersion                   (* "convert version to int: %w" *)
| UnsupportedVersion (version : Z) (* "unsupported version %d" *)
| ConvertBits                      (* "convert bits to int: %w" *)
| ParseDate                        (* "parse date: %w" *)
| DecodeCounter                    (* "decode counter: %w" *)
| ConvertCounter                   (* "convert counter to int: %w" *)
| ParseHeaderStringFailed (e : error)  (* Calculate: "parse header string: %w" *)
| ParseCalculated (e : error)      (* Verify: "parse calculated header string: %w" *)
| ParseChallenge (e : error)       (* Verify: "parse challenge header string: %w" *)
| ChallengeMismatch.               (* "calculated header doesn't match the challenge" *)

(** Run-time panics the code can raise. *)
Inductive panic : Type :=
| SliceBoundsOutOfRange
| IndexOutOfRange
| IntnInvalidArgument.

Inductive res (A : Type) : Type :=
| Ok (a : A)
| Err (e : error)
| Panic (p : panic)
| OutOfFuel.
Arguments Ok {A} a.
Arguments Err {A} e.
Arguments Panic {A} p.
Arguments OutOfFuel {A}.

Definition res_bind {A B} (r : res A) (k : A -> res B) : res B :=
  match r with
  | Ok a => k a
  | Err e => Err e
  | Panic p => Panic p
  | OutOfFuel => OutOfFuel
  end.

(** ** Machine integers *)

Module Int.
Definition uint64_mod : Z := 2 ^ 64.
Definition maxInt64 : Z := 2 ^ 63 - 1.
Definition minInt64 : Z := - 2 ^ 63.

(** conversion to [uint] *)
Definition to_uint64 (x : Z) : Z := x mod uint64_mod.
(** conversion to [uint8] *)
Definition to_uint8 (x : Z) : Z := x mod 256.
(** two's complement wrap-around of a signed 64-bit result *)
Definition wrap_int64 (x : Z) : Z := (x + 2 ^ 63) mod uint64_mod - 2 ^ 63.

Definition is_int64 (x : Z) : Prop := minInt64 <= x <= maxInt64.
Definition is_uint64 (x : Z) : Prop := 0 <= x < uint64_mod.
End Int.

(** ** The parts of the Go standard library the package calls *)

Module strings.
(** [strings.Split(s, sep)] for a one-byte separator: the pieces between
    the occurrences of [sep], one more than there are occurrences. *)
Fixpoint Split (s : string) (sep : byte) : list string :=
  match s with
  | EmptyString => [EmptyString]
  | String c s' =>
      if Ascii.eqb c sep then EmptyString :: Split s' sep
      else match Split s' sep with
           | piece :: pieces => String c piece :: pieces
           | [] => [String c EmptyString]
           end
  end.

(** whether the byte [c] occurs in [s] *)
Fixpoint contains (s : string) (c : byte) : bool :=
  match s with
  | EmptyString => false
  | String c' s' => Ascii.eqb c' c || contains s' c
  end.

(** [strings.Join(pieces, sep)] for a one-byte separator *)
Fixpoint Join (pieces : list string) (sep : byte) : string :=
  match pieces with
  | [] => EmptyString
  | [p] => p
  | p :: ps => p ++ String sep (Join ps sep)
  end.
End strings.

Module strconv.
Definition digit_val (c : byte) : option Z :=
  let v := byte_val c in
  if (48 <=? v) && (v <=? 57) then Some (v - 48) else None.

Definition digit_char (d : Z) : byte := ascii_of_N (Z.to_N (d + 48)).

(** the value of a run of decimal digits, most significant first *)
Fixpoint parse_digits (s : string) (acc : Z) : option Z :=
  match s with
  | EmptyString => Some acc
  | String c s' =>
      match digit_val c with
      | Some d => parse_digits s' (acc * 10 + d)
      | None => None
      end
  end.

(** [strconv.ParseInt(s, 10, bitSize)]: an optional sign, then at least
    one decimal digit and nothing else; a value outside the signed
    [bitSize]-bit range is an error.  [None] stands for a non-nil error. *)
Definition ParseInt (s : string) (bitSize : Z) : option Z :=
  match s with
  | EmptyString => None
  | String c s' =>
      let '(neg, digits) :=
        if Ascii.eqb c "+"%char then (false, s')
        else if Ascii.eqb c "-"%char then (true, s')
        else (false, s) in
      match digits with
      | EmptyString => None
      | _ =>
          match parse_digits digits 0 with
          | None => None
          | Some un =>
              let cutoff := 2 ^ (bitSize - 1) in
              if negb neg && (cutoff <=? un) then None
              else if neg && (cutoff <? un) then None
              else Some (if neg then - un else un)
          end
      end
  end.

(** [strconv.Atoi(s)] is [ParseInt(s, 10, 0)] with [int] of 64 bits. *)
Definition Atoi (s : string) : option Z := ParseInt s 64.

(** the decimal digits of [u], most significant first, put before [acc] *)
Fixpoint format_digits (fuel : nat) (u : Z) (acc : string) : string :=
  match fuel with
  | O => acc
  | S fuel' =>
      let acc' := String (digit_char (u mod 10)) acc in
      if u / 10 =? 0 then acc' else format_digits fuel' (u / 10) acc'
  end.

(** [strconv.FormatUint(u, 10)], also [%d] of an unsigned value: a 64-bit
    value has at most 20 digits. *)
Definition FormatUint (u : Z) : string := format_digits 20 u EmptyString.

(** [strconv.FormatInt(i, 10)], also [%d] of a signed value *)
Definition FormatInt (i : Z) : string :=
  if i <? 0 then String "-"%char (FormatUint (- i)) else FormatUint i.
End strconv.

Module base64.
(** the alphabet of [base64.StdEncoding] *)
Definition encodeStd : string :=
  "ABCDEFGHIJKLMNOPQRSTUVWXYZabcdefghijklmnopqrstuvwxyz0123456789+/".

Definition padChar : byte := "="%char.

Definition encode_char (v : Z) : byte :=
  match String.get (Z.to_nat v) encodeStd with
  | Some c => c
  | None => padChar
  end.

Fixpoint index_from (c : byte) (alphabet : string) (i : Z) : option Z :=
  match alphabet with
  | EmptyString => None
  | String a rest => if Ascii.eqb a c then Some i else index_from c rest (i + 1)
  end.

(** the decode map: the position of [c] in the alphabet *)
Definition decode_char (c : byte) : option Z := index_from c encodeStd 0.

(** [StdEncoding.EncodeToString]: three bytes give four characters, the
    last group is padded with [=]. *)
Fixpoint EncodeToString (src : string) : string :=
  match src with
  | EmptyString => EmptyString
  | String a EmptyString =>
      String (encode_char (byte_val a / 4))
        (String (encode_char (byte_val a mod 4 * 16))
           (String padChar (String padChar EmptyString)))
  | String a (String b EmptyString) =>
      String (encode_char (byte_val a / 4))
        (String (encode_char (byte_val a mod 4 * 16 + byte_val b / 16))
           (String (encode_char (byte_val b mod 16 * 4))
              (String padChar EmptyString)))
  | String a (String b (String c rest)) =>
      String (encode_char (byte_val a / 4))
        (String (encode_char (byte_val a mod 4 * 16 + byte_val b / 16))
           (String (encode_char (byte_val b mod 16 * 4 + byte_val c / 64))
              (String (encode_char (byte_val c mod 64)) (EncodeToString rest))))
  end.

Definition is_newline (c : byte) : bool :=
  Ascii.eqb c "010"%char || Ascii.eqb c "013"%char.

(** the decoder ignores carriage returns and line feeds *)
Fixpoint strip_newlines (s : string) : string :=
  match s with
  | EmptyString => EmptyString
  | String c s' =>
      if is_newline c then strip_newlines s' else String c (strip_newlines s')
  end.

Definition is_empty (s : string) : bool :=
  match s with EmptyString => true | _ => false end.

(** whole quanta of four characters; padding only closes the input *)
Fixpoint decode_quanta (s : string) : option string :=
  match s with
  | EmptyString => Some EmptyString
  | String a (String b (String c (String d rest))) =>
      match decode_char a, decode_char b with
      | Some x, Some y =>
          let b0 := val_byte (x * 4 + y / 16) in
          if Ascii.eqb c padChar then
            if Ascii.eqb d padChar && is_empty rest
            then Some (String b0 EmptyString) else None
          else
            match decode_char c with
            | None => None
            | Some z =>
                let b1 := val_byte (y mod 16 * 16 + z / 4) in
                if Ascii.eqb d padChar then
                  if is_empty rest
                  then Some (String b0 (String b1 EmptyString)) else None
                else
                  match decode_char d with
                  | None => None
                  | Some w =>
                      let b2 := val_byte (z mod 4 * 64 + w) in
                      match decode_quanta rest with
                      | Some tail => Some (String b0 (String b1 (String b2 tail)))
                      | None => None
                      end
                  end
            end
      | _, _ => None
      end
  | _ => None
  end.

(** [StdEncoding.DecodeString]; [None] stands for a non-nil error. *)
Definition DecodeString (s : string) : option string :=
  decode_quanta (strip_newlines s).
End base64.

(** ** SHA-256 (FIPS 180-4), the hash behind [sha256.New()] *)

Module sha256.
Definition Size : nat := 32.

(** the low 32 bits *)
Definition w32 (x : Z) : Z := Z.land x 4294967295.
Definition add32 (x y : Z) : Z := w32 (x + y).
Definition rotr (x n : Z) : Z :=
  w32 (Z.lor (Z.shiftr x n) (Z.shiftl x (32 - n))).
Definition not32 (x : Z) : Z := 2 ^ 32 - 1 - x.

Definition Ch (x y z : Z) : Z := Z.lxor (Z.land x y) (Z.land (not32 x) z).
Definition Maj (x y z : Z) : Z :=
  Z.lxor (Z.lxor (Z.land x y) (Z.land x z)) (Z.land y z).
Definition Sigma0 (x : Z) : Z := Z.lxor (Z.lxor (rotr x 2) (rotr x 13)) (rotr x 22).
Definition Sigma1 (x : Z) : Z := Z.lxor (Z.lxor (rotr x 6) (rotr x 11)) (rotr x 25).
Definition sigma0 (x : Z) : Z := Z.lxor (Z.lxor (rotr x 7) (rotr x 18)) (Z.shiftr x 3).
Definition sigma1 (x : Z) : Z := Z.lxor (Z.lxor (rotr x 17) (rotr x 19)) (Z.shiftr x 10).

(** the round constants of FIPS 180-4, section 4.2.2, in decimal *)
Definition K : list Z := [
  1116352408; 1899447441; 3049323471; 3921009573;
  961987163; 1508970993; 2453635748; 2870763221;
  3624381080; 310598401; 607225278; 1426881987;
  1925078388; 2162078206; 2614888103; 3248222580;
  3835390401; 4022224774; 264347078; 604807628;
  770255983; 1249150122; 1555081692; 1996064986;
  2554220882; 2821834349; 2952996808; 3210313671;
  3336571891; 3584528711; 113926993; 338241895;
  666307205; 773529912; 1294757372; 1396182291;
  1695183700; 1986661051; 2177026350; 2456956037;
  2730485921; 2820302411; 3259730800; 3345764771;
  3516065817; 3600352804; 4094571909; 275423344;
  430227734; 506948616; 659060556; 883997877;
  958139571; 1322822218; 1537002063; 1747873779;
  1955562222; 2024104815; 2227730452; 2361852424;
  2428436474; 2756734187; 3204031479; 3329325298 ].

(** the eight working variables, also the chaining value *)
Record state : Type := mkState { sa : Z; sb : Z; sc : Z; sd : Z;
                                 se : Z; sf : Z; sg : Z; sh : Z }.

(** the initial hash value of FIPS 180-4, section 5.3.3, in decimal *)
Definition init : state :=
  mkState 1779033703 3144134277 1013904242 2773480762
          1359893119 2600822924 528734635 1541459225.

(** the next word of the message schedule from the last sixteen *)
Definition next_word (window : list Z) : Z :=
  add32 (add32 (sigma1 (nth 14 window 0)) (nth 9 window 0))
        (add32 (sigma0 (nth 1 window 0)) (nth 0 window 0)).

Definition round (s : state) (k w : Z) : state :=
  let t1 := add32 (add32 (add32 (sh s) (Sigma1 (se s)))
                         (add32 (Ch (se s) (sf s) (sg s)) k)) w in
  let t2 := add32 (Sigma0 (sa s)) (Maj (sa s) (sb s) (sc s)) in
  mkState (add32 t1 t2) (sa s) (sb s) (sc s) (add32 (sd s) t1) (se s) (sf s) (sg s).

(** the rounds for the constants [ks], the schedule sliding along *)
Fixpoint rounds (ks : list Z) (window : list Z) (s : state) : state :=
  match ks with
  | [] => s
  | k :: ks' =>
      let s' := round s k (nth 0 window 0) in
      rounds ks' (tl window ++ [next_word window])%list s'
  end.

Definition compress (h : state) (block : list Z) : state :=
  let s := rounds K block h in
  mkState (add32 (sa h) (sa s)) (add32 (sb h) (sb s)) (add32 (sc h) (sc s))
          (add32 (sd h) (sd s)) (add32 (se h) (se s)) (add32 (sf h) (sf s))
          (add32 (sg h) (sg s)) (add32 (sh h) (sh s)).

(** big-endian words of a byte sequence whose length is a multiple of 4 *)
Fixpoint words (bs : list Z) : list Z :=
  match bs with
  | a :: b :: c :: d :: rest =>
      (((a * 256 + b) * 256 + c) * 256 + d) :: words rest
  | _ => []
  end.

Fixpoint bytes_of (s : string) : list Z :=
  match s with
  | EmptyString => []
  | String c s' => byte_val c :: bytes_of s'
  end.

Definition be64 (n : Z) : list Z :=
  map (fun i => (n / 2 ^ (8 * i)) mod 256) [7; 6; 5; 4; 3; 2; 1; 0].

(** the message, the bit 1, zeros up to 56 modulo 64, the bit length *)
Definition pad (msg : list Z) : list Z :=
  let len := Z.of_nat (List.length msg) in
  let zeros := (55 - len) mod 64 in
  (msg ++ 128 :: repeat 0 (Z.to_nat zeros) ++ be64 (8 * len))%list.

(** one block of sixteen words after the other *)
Fixpoint blocks (n : nat) (ws : list Z) (h : state) : state :=
  match n with
  | O => h
  | S n' => blocks n' (skipn 16 ws) (compress h (firstn 16 ws))
  end.

Definition word_bytes (w : Z) : list byte :=
  [ val_byte (w / 2 ^ 24); val_byte (w / 2 ^ 16); val_byte (w / 2 ^ 8); val_byte w ].

Definition digest_bytes (h : state) : list byte :=
  (word_bytes (sa h) ++ word_bytes (sb h) ++ word_bytes (sc h) ++ word_bytes (sd h)
   ++ word_bytes (se h) ++ word_bytes (sf h) ++ word_bytes (sg h)
   ++ word_bytes (sh h))%list.

(** the digest of everything written since the last reset *)
Definition Sum256 (msg : string) : list byte :=
  let ws := words (pad (bytes_of msg)) in
  digest_bytes (blocks (Nat.div (List.length ws) 16) ws init).
End sha256.

(** ** [github.com/itchyny/timefmt-go] *)

Module timefmt.
Definition is_digit (c : byte) : bool :=
  match strconv.digit_val c with Some _ => true | None => false end.

Fixpoint all_digits (s : string) : bool :=
  match s with
  | EmptyString => true
  | String c s' => is_digit c && all_digits s'
  end.

(** Modelled from the spec: [timefmt.Parse] is a third-party function and
    is not part of the repository.  The spec has the date check succeed
    exactly when the field matches the fixed-width timestamp format
    [YYMMDDHHMM] (the layout [FormatDate], ["%y%m%d%H%M"]), a syntactic
    check only: ten decimal digits.  [true] stands for a nil error.  The
    package below takes the date check as a parameter; this definition is
    the instance the concrete runs use. *)
Definition Parse_FormatDate (source : string) : bool :=
  (Z.of_nat (String.length source) =? 10) && all_digits source.
End timefmt.

(** ** [math/rand] *)

Module rand.
(** [rand.Intn(n)]: panics unless [0 < n]; otherwise the value the source
    delivers, reduced into [[0, n)].  [draw] is the non-negative value the
    generator hands out for this call. *)
Definition Intn (n : Z) (draw : Z) : res Z :=
  if n <=? 0 then Panic IntnInvalidArgument else Ok (draw mod n).
End rand.

(** ** Package [pow] *)

Definition Version : Z := 1.

(** [type Header struct] *)
Record Header : Type := mkHeader {
  version : Z;       (* uint8, must be 1 *)
  bits : Z;          (* uint *)
  date : string;     (* see FormatDate *)
  resource : string;
  random : string;   (* base-64 encoded sequence of 10 random bytes *)
  counter : Z        (* int64 *)
}.

(** A [hash.Hash] value as its clients see it: the bytes written since the
    last [Reset]. *)
Definition Hash : Type := string.

(** Computations that use the package-level [hasher]. *)
Definition M (A : Type) : Type := Hash -> res A * Hash.

Definition ret {A} (a : A) : M A := fun hasher => (Ok a, hasher).
Definition lift {A} (r : res A) : M A := fun hasher => (r, hasher).
Definition bind {A B} (m : M A) (k : A -> M B) : M B :=
  fun hasher =>
    match m hasher with
    | (Ok a, hasher') => k a hasher'
    | (Err e, hasher') => (Err e, hasher')
    | (Panic p, hasher') => (Panic p, hasher')
    | (OutOfFuel, hasher') => (OutOfFuel, hasher')
    end.

Declare Scope pow_scope.
Notation "x <- m ;; k" := (bind m (fun x => k))
  (at level 61, m at next level, right associativity) : pow_scope.
Notation "'try' x <- r 'in' k" := (res_bind r (fun x => k))
  (at level 61, x name, r at next level, right associativity) : pow_scope.
Local Open Scope pow_scope.

(** an error of a library call, wrapped by [fmt.Errorf] *)
Definition or_fail {A} (o : option A) (e : error) : res A :=
  match o with Some a => Ok a | None => Err e end.

Definition wrap_error {A} (r : res A) (w : error -> error) : res A :=
  match r with Err e => Err (w e) | _ => r end.

(** [for _, b := range prefix { if b != 0 { return false } }]: [true] when
    the loop runs to its end. *)
Fixpoint checkBits_range (prefix : list byte) : bool :=
  match prefix with
  | [] => true
  | b :: rest => if negb (byte_val b =? 0) then false else checkBits_range rest
  end.

(** the [switch modulo] of [checkBits] on the byte [b := hash[quotient]]:
    [false] when a case returns false, [true] when control leaves the switch *)
Definition checkBits_switch (modulo : Z) (b : Z) : bool :=
  match modulo with
  | 1 => if b >? 127 then false else true
  | 2 => if b >? 63 then false else true
  | 3 => if b >? 31 then false else true
  | 4 => if b >? 15 then false else true
  | 5 => if b >? 7 then false else true
  | 6 => if b >? 3 then false else true
  | 7 => if b >? 1 then false else true
  | _ => true
  end.

(** [func checkBits(hash []byte, bits uint) bool] *)
Definition checkBits (hash : list byte) (bits : Z) : res bool :=
  let modulo := bits mod 8 in
  let quotient := bits / 8 in
  if Z.of_nat (List.length hash) <? quotient then Panic SliceBoundsOutOfRange
  else if negb (checkBits_range (firstn (Z.to_nat quotient) hash)) then Ok false
  else if modulo >? 0 then
    match nth_error hash (Z.to_nat quotient) with
    | None => Panic IndexOutOfRange
    | Some b => if negb (checkBits_switch modulo (byte_val b)) then Ok false else Ok true
    end
  else Ok true.

(** [func (h Header) String() string], the layout [FormatHeader]
    ["%d:%d:%s:%s::%s:%s"]; the first verb prints the constant [Version]. *)
Definition String_ (h : Header) : string :=
  let counter := base64.EncodeToString (strconv.FormatInt (counter h)) in
  (strconv.FormatInt Version ++ ":" ++ strconv.FormatUint (bits h) ++ ":"
   ++ date h ++ ":" ++ resource h ++ "::" ++ random h ++ ":" ++ counter)%string.

(** [header.counter++] on an [int64] *)
Definition incr_counter (h : Header) : Header :=
  mkHeader (version h) (bits h) (date h) (resource h) (random h)
           (Int.wrap_int64 (counter h + 1)).

(** [func NewHeader(bits uint, resource string)]: [now] is
    the clock reading printed with [FormatDate], [nonce] the ten bytes of
    [rand.Read], [int63] the value of [rand.Int63()]. *)
Definition NewHeader (bits : Z) (resource : string)
    (now : string) (nonce : string) (int63 : Z) : Header :=
  mkHeader Version bits now resource (base64.EncodeToString nonce) int63.

(** [func Challenge(bits uint, resource string) (string, error)] *)
Definition Challenge (bits : Z) (resource : string)
    (now : string) (nonce : string) (int63 : Z) : string :=
  String_ (NewHeader bits resource now nonce int63).

Section Pow.
(** [timefmt.Parse(date, FormatDate)]: [true] for a nil error. *)
Variable timefmt_Parse : string -> bool.
(** The digest function of the hash behind [hasher]. *)
Variable Sum256 : string -> list byte.

(** [func ParseHeaderString(header string)] *)
Definition ParseHeaderString (header : string) : res Header :=
  match strings.Split header ":"%char with
  | [f0; f1; f2; f3; _; f5; f6] =>
      try version <- or_fail (strconv.Atoi f0) ConvertVersion in
      if negb (version =? Version) then Err (UnsupportedVersion version) else
      try bits <- or_fail (strconv.Atoi f1) ConvertBits in
      let date := f2 in
      if negb (timefmt_Parse date) then Err ParseDate else
      let resource := f3 in
      (* split[4] stands for omitted extensions *)
      let random := f5 in
      try b <- or_fail (base64.DecodeString f6) DecodeCounter in
      try counter <- or_fail (strconv.ParseInt b 64) ConvertCounter in
      Ok (mkHeader (Int.to_uint8 version) (Int.to_uint64 bits)
                   date resource random counter)
  | _ => Err MalformedHeader
  end.

(** the three methods of [hash.Hash] the package calls *)
Definition Reset_ (hasher : Hash) : Hash := EmptyString.
Definition Write_ (hasher : Hash) (p : string) : Hash := (hasher ++ p)%string.
Definition Sum_nil (hasher : Hash) : list byte := Sum256 hasher.

(** [func getHash(header string, hasher hash.Hash) []byte] *)
Definition getHash (header : string) : M (list byte) :=
  fun hasher =>
    let hasher := Reset_ hasher in
    let hasher := Write_ hasher header in
    (Ok (Sum_nil hasher), hasher).

(** the loop of [Calculate], run for at most [fuel] iterations *)
Fixpoint Calculate_loop (fuel : nat) (header : Header) (bits : Z) : M string :=
  match fuel with
  | O => lift OutOfFuel
  | S fuel' =>
      calculatedHash <- getHash (String_ header) ;;
      ok <- lift (checkBits calculatedHash bits) ;;
      if negb ok then
        Calculate_loop fuel' (incr_counter header) bits
      else ret (String_ header)
  end.

(** [func Calculate(headerStr string) (string, error)] *)
Definition Calculate (fuel : nat) (headerStr : string) : M string :=
  header <- lift (wrap_error (ParseHeaderString headerStr) ParseHeaderStringFailed) ;;
  let bits := bits header in
  Calculate_loop fuel header bits.

(** [func Verify(calculated, challenge string) (bool, error)] *)
Definition Verify (calculated challenge : string) : M bool :=
  calculatedHeader <- lift (wrap_error (ParseHeaderString calculated) ParseCalculated) ;;
  challengeHeader <- lift (wrap_error (ParseHeaderString challenge) ParseChallenge) ;;
  (* check if the calculated PoW result corresponds to the challenge *)
  if negb (version calculatedHeader =? version challengeHeader)
     || negb (bits calculatedHeader =? bits challengeHeader)
     || negb (String.eqb (date calculatedHeader) (date challengeHeader))
     || negb (String.eqb (resource calculatedHeader) (resource challengeHeader))
     || negb (String.eqb (random calculatedHeader) (random challengeHeader))
  then lift (Err ChallengeMismatch)
  else
    (* check the number of leading zero bits *)
    calculatedHash <- getHash (String_ calculatedHeader) ;;
    ok <- lift (checkBits calculatedHash (bits calculatedHeader)) ;;
    if negb ok then ret false else ret true.

(** *** Two invocations of [getHash] on the one [hasher]

    [getHash] is three method calls on the package-level [hasher].  Two
    goroutines that run it at the same time take turns between the calls;
    a schedule names the goroutine that makes the next call. *)

Inductive hash_call : Type :=
| CallReset
| CallWrite (p : string)
| CallSum.

(** the calls [getHash(header, hasher)] makes, in order *)
Definition getHash_calls (header : string) : list hash_call :=
  [CallReset; CallWrite header; CallSum].

(** one method call: the new state, and the digest when the call is [Sum] *)
Definition do_call (c : hash_call) (hasher : Hash) : Hash * option (list byte) :=
  match c with
  | CallReset => (Reset_ hasher, None)
  | CallWrite p => (Write_ hasher p, None)
  | CallSum => (hasher, Some (Sum_nil hasher))
  end.

(** a goroutine inside [getHash]: the calls still to make, and the digest
    it has got *)
Record goroutine : Type := mkGoroutine {
  pending : list hash_call;
  digest : option (list byte)
}.

Definition start_getHash (header : string) : goroutine :=
  mkGoroutine (getHash_calls header) None.

Definition step_goroutine (g : goroutine) (hasher : Hash) : goroutine * Hash :=
  match pending g with
  | [] => (g, hasher)
  | c :: rest =>
      let '(hasher', d) := do_call c hasher in
      (mkGoroutine rest (match d with Some _ => d | None => digest g end), hasher')
  end.

(** [schedule]: [false] lets the first goroutine make its next call,
    [true] the second *)
Fixpoint interleave (schedule : list bool) (g1 g2 : goroutine) (hasher : Hash)
  : goroutine * goroutine * Hash :=
  match schedule with
  | [] => (g1, g2, hasher)
  | false :: schedule' =>
      let '(g1', hasher') := step_goroutine g1 hasher in
      interleave schedule' g1' g2 hasher'
  | true :: schedule' =>
      let '(g2', hasher') := step_goroutine g2 hasher in
      interleave schedule' g1 g2' hasher'
  end.
End Pow.

(** ** Package [handler]: the challenge step of [ProofOfWork.ServeTCP] *)

Module handler.
(** [bits := rand.Intn(h.complexity-10) + 10] on [int]s; [draw] is what
    the random source delivers. *)
Definition ServeTCP_bits (complexity : Z) (draw : Z) : res Z :=
  try r <- rand.Intn (Int.wrap_int64 (complexity - 10)) draw in
  Ok (Int.wrap_int64 (r + 10)).

(** [h.challenge(uint(bits), resource)] with [pow.Challenge] *)
Definition ServeTCP_challenge (complexity : Z) (draw : Z) (resource : string)
    (now : string) (nonce : string) (int63 : Z) : res string :=
  try bits <- ServeTCP_bits complexity draw in
  Ok (Challenge (Int.to_uint64 bits) resource now nonce int63).
End handler.

(** ** Leading zero bits *)

(** the bits of a byte, most significant first *)
Definition byte_bits (b : byte) : list bool :=
  let '(Ascii b0 b1 b2 b3 b4 b5 b6 b7) := b in [b7; b6; b5; b4; b3; b2; b1; b0].

Definition digest_bits (d : list byte) : list bool := flat_map byte_bits d.

(** the number of zero bits before the first one bit *)
Fixpoint count_leading_zeros (bs : list bool) : Z :=
  match bs with
  | false :: rest => 1 + count_leading_zeros rest
  | _ => 0
  end.

Definition leading_zero_bits (d : list byte) : Z :=
  count_leading_zeros (digest_bits d).

(** ** The package at SHA-256 and the ten-digit date check *)

Module Concrete.
Definition ParseHeaderString := ParseHeaderString timefmt.Parse_FormatDate.
Definition Calculate := Calculate timefmt.Parse_FormatDate sha256.Sum256.
Definition Verify := Verify timefmt.Parse_FormatDate sha256.Sum256.
(** [var hasher = sha256.New()] *)
Definition hasher : Hash := EmptyString.
End Concrete.

(** ** Vocabulary of the statements *)

(** [s] holds no colon *)
Definition no_colon (s : string) : Prop := strings.contains s ":"%char = false.

(** the five fields that bind a result to its challenge *)
Definition same_challenge (h1 h2 : Header) : Prop :=
  version h1 = version h2 /\ bits h1 = bits h2 /\ date h1 = date h2 /\
  resource h1 = resource h2 /\ random h1 = random h2.

Definition same_challengeb (h1 h2 : Header) : bool :=
  (version h1 =? version h2) && (bits h1 =? bits h2)
  && String.eqb (date h1) (date h2) && String.eqb (resource h1) (resource h2)
  && String.eqb (random h1) (random h2).

(** the seven fields [String] prints, the fifth being the extension *)
Definition String_fields (h : Header) : list string :=
  [ strconv.FormatInt Version; strconv.FormatUint (bits h); date h; resource h;
    EmptyString; random h; base64.EncodeToString (strconv.FormatInt (counter h)) ].

(** what [String] needs of a header for [ParseHeaderString] to read it back *)
Definition printable (timefmt_Parse : string -> bool) (h : Header) : Prop :=
  version h = Version /\ 0 <= bits h < 2 ^ 63 /\ Int.is_int64 (counter h) /\
  timefmt_Parse (date h) = true /\
  no_colon (date h) /\ no_colon (resource h) /\ no_colon (random h).

(** the header after [k] increments of the counter *)
Fixpoint after_increments (k : nat) (h : Header) : Header :=
  match k with
  | O => h
  | S k' => after_increments k' (incr_counter h)
  end.

(** the first byte of a formatted number is a digit *)
Definition starts_with_digit (s : string) : Prop :=
  match s with
  | EmptyString => False
  | String c _ => exists d, 0 <= d < 10 /\ c = strconv.digit_char d
  end.

(** ** Data of the concrete runs *)

(** a digest with twelve leading zero bits *)
Definition digest12 : list byte :=
  [ "000"; "015"; "255"; "001"; "002"; "003"; "004"; "005" ]%char.

(** the header strings of [hashcash_test.go] *)
Definition challenge12 : string :=
  "1:12:2208082121:d778f1e9-d0a8-485e-ab51-053a12e9b397::cRvZdlXCCIrWoQ==:NDAwMjk4NDM4NTU1MTUyNDEzOA==".
Definition result12 : string :=
  "1:12:2208082121:d778f1e9-d0a8-485e-ab51-053a12e9b397::cRvZdlXCCIrWoQ==:NDAwMjk4NDM4NTU1MTUyODcyOA==".
Definition wrong12 : string :=
  "1:12:2208082121:d778f1e9-d0a8-485e-ab51-053a12e9b397::cRvZdlXCCIrWoQ==:NDAwMjk4NDM4NTU1MTUyODcyNw==".
Definition other12 : string :=
  "1:12:2208082127:f1a5a003-27ce-4e62-8c48-14c250965b92::kUumfNZAqta03Q==:MTA4MDAyODM5MTgzMzgyMTg0OQ==".
Definition header2 : string := "1:2:2201010000:resource::cmFuZG9t:MTAwMA==".
Definition header2_ext : string := "1:2:2201010000:resource:ext=1:cmFuZG9t:MTAwMA==".

(** the challenge of the test suite 28 increments before its result *)
Definition near12 : string :=
  "1:12:2208082121:d778f1e9-d0a8-485e-ab51-053a12e9b397::cRvZdlXCCIrWoQ==:NDAwMjk4NDM4NTU1MTUyODcwMA==".

(** a challenge of four bits whose counter starts at 1090, and its result *)
Definition challenge4 : string := "1:4:2201010000:resource::cmFuZG9t:MTA5MA==".
Definition result4 : string := "1:4:2201010000:resource::cmFuZG9t:MTA5Mg==".

(** headers of version 1 that [String] prints and [ParseHeaderString]
    refuses: [NewHeader(5, "urn:quotes")], [NewHeader(1<<63, "resource")],
    and a [Header] literal whose date is no timestamp *)
Definition header_colon : Header :=
  NewHeader 5 "urn:quotes" "2201010000" "0123456789" 1000.
Definition header_bits63 : Header :=
  NewHeader (2 ^ 63) "resource" "2201010000" "0123456789" 1000.
Definition header_date : Header :=
  mkHeader 1 5 "today" "resource" "MDEyMzQ1Njc4OQ==" 1000.
(** [NewHeader(5, "resource")] *)
Definition header_ok : Header :=
  NewHeader 5 "resource" "2201010000" "0123456789" 1000.

(** header strings that parse, with a target beyond the 256 bits of a digest *)
Definition challenge264 : string := "1:264:2201010000:resource::cmFuZG9t:MTAwMA==".
Definition negative_bits : string := "1:-5:2201010000:resource::cmFuZG9t:MTAwMA==".

(** the two goroutines make their calls in turn *)
Definition alternate : list bool := [false; true; false; true; false; true].
(** the first goroutine makes its three calls, then the second *)
Definition one_after_the_other : list bool := [false; false; false; true; true; true].

(** ** Further vocabulary and data *)

(** the number of occurrences of the byte [c] in [s] *)
Fixpoint count_byte (s : string) (c : byte) : nat :=
  match s with
  | EmptyString => O
  | String c' s' => (if Ascii.eqb c' c then 1 else 0) + count_byte s' c
  end.

(** a challenge of bits 0 *)
Definition challenge0 : string := "1:0:2201010000:resource::cmFuZG9t:MTAwMA==".
(** the parsed [challenge4] *)
Definition header4 : Header := mkHeader 1 4 "2201010000" "resource" "cmFuZG9t" 1090.

(** ** Package [logger] *)

Module logger.
(** [type Level int] with its four constants *)
Inductive Level : Type := LevelError | LevelWarn | LevelInfo | LevelDebug.
End logger.

(** ** Package [service] *)

Module service.
(** [type IdsHolder struct]: the ids it holds *)
Definition IdsHolder : Type := list string.

(** [func (ih *IdsHolder) Get(idKey int) (string, bool)] *)
Definition IdsHolder_Get (ih : IdsHolder) (idKey : Z) : string * bool :=
  if (idKey <? 0) || (Z.of_nat (List.length ih) <=? idKey) then (EmptyString, false)
  else (nth (Z.to_nat idKey) ih EmptyString, true).

(** [func (ih *IdsHolder) Len() int] *)
Definition IdsHolder_Len (ih : IdsHolder) : Z := Z.of_nat (List.length ih).

(** [type Getter interface] *)
Record Getter : Type := mkGetter {
  Get : string -> string;
  GetIds : list string
}.

(** [type FileGetter struct]: the map [quotes] as an association list
    without duplicate keys, in the order [maps.Keys] goes through it *)
Definition FileGetter : Type := list (string * string).

(** [g.quotes[id]]: the zero value for a missing key *)
Fixpoint FileGetter_Get (g : FileGetter) (id : string) : string :=
  match g with
  | [] => EmptyString
  | (k, q) :: g' => if String.eqb k id then q else FileGetter_Get g' id
  end.

(** [func (g *FileGetter) GetIds() []string] *)
Definition FileGetter_GetIds (g : FileGetter) : list string := map fst g.

Definition FileGetter_Getter (g : FileGetter) : Getter :=
  mkGetter (FileGetter_Get g) (FileGetter_GetIds g).

(** [type WordOfWisdomService struct] *)
Record WordOfWisdomService : Type := mkService {
  getter : Getter;
  ids : IdsHolder
}.

(** [func NewWordOfWisdomService(getter Getter) *WordOfWisdomService] *)
Definition NewWordOfWisdomService (g : Getter) : WordOfWisdomService :=
  mkService g (GetIds g).

(** the error of [Quote], ["get random quote id"] *)
Inductive quote_error : Type := GetRandomQuoteId.

(** what a call of [Quote] comes to *)
Inductive quoted : Type :=
| Quoted (quote : string)
| QuoteErr (e : quote_error)
| QuotePanic (p : panic).

(** [func (src *WordOfWisdomService) Quote() (string, error)]; [draw] is
    what the random source delivers to [rand.Intn] *)
Definition Quote (src : WordOfWisdomService) (draw : Z) : quoted :=
  match rand.Intn (IdsHolder_Len (ids src)) draw with
  | Ok n =>
      let '(id, ok) := IdsHolder_Get (ids src) n in
      if negb ok then QuoteErr GetRandomQuoteId
      else Quoted (Get (getter src) id)
  | Panic p => QuotePanic p
  | _ => QuotePanic IntnInvalidArgument
  end.
End service.

(** a quote source of two quotes *)
Definition two_quotes : service.FileGetter :=
  [("id_1", "quote_1"); ("id_2", "quote_2")]%string.

(** ** Package [tcp] *)

Module tcp.
Import logger.
Local Open Scope list_scope.

(** the errors of [ListenAndServe], one constructor per message *)
Inductive listen_error : Type :=
| ResolveTCPAddress    (* "resolve TCP address: %w" *)
| ListenTCP            (* "listen TCP: %w" *)
| GetHostAndPort       (* "get listened host and port: %w" *)
| SetListenerDeadline  (* "set TCP listener deadline: %w" *)
| AcceptConnection.    (* "accept connection: %w" *)

(** what the outside does in one iteration of the loop: the context is
    done (and [Close] of the listener returns an error or not), or it is
    not and [SetDeadline] fails, or [Accept] times out, fails otherwise,
    or gives a connection *)
Inductive iteration (C : Type) : Type :=
| ContextDone (close_fails : bool)
| DeadlineFails
| AcceptTimeout
| AcceptFails
| Accepted (conn : C).
Arguments ContextDone {C} close_fails.
Arguments DeadlineFails {C}.
Arguments AcceptTimeout {C}.
Arguments AcceptFails {C}.
Arguments Accepted {C} conn.

(** what [ListenAndServe] does that can be seen from outside *)
Inductive listen_event (C : Type) : Type :=
| Listening                    (* net.ListenTCP gave a listener *)
| LogListener (level : Level)
| GoServeTCP (conn : C)        (* go s.handler.ServeTCP(ctx, wrapped) *)
| CloseListener.
Arguments Listening {C}.
Arguments LogListener {C} level.
Arguments GoServeTCP {C} conn.
Arguments CloseListener {C}.

(** how a call ends: with the nil error, with an error, or not within
    the iterations given *)
Inductive returned : Type :=
| ReturnsNil
| ReturnsError (e : listen_error)
| StillServing.

(** the [for] loop of [ListenAndServe], one iteration of the script after
    the other *)
Fixpoint serve_loop {C : Type} (script : list (iteration C))
  : list (listen_event C) * returned :=
  match script with
  | [] => ([], StillServing)
  | ContextDone close_fails :: _ =>
      ([LogListener LevelDebug; CloseListener]
       ++ (if close_fails then [LogListener LevelError] else []), ReturnsNil)
  | DeadlineFails :: _ => ([], ReturnsError SetListenerDeadline)
  | AcceptTimeout :: script' => serve_loop script'
  | AcceptFails :: _ => ([], ReturnsError AcceptConnection)
  | Accepted conn :: script' =>
      let '(events, r) := serve_loop script' in
      (GoServeTCP conn :: events, r)
  end.

(** [func (s *Server) ListenAndServe(ctx context.Context) error]:
    [resolve], [listen] and [split] tell whether [net.ResolveTCPAddr],
    [net.ListenTCP] and [net.SplitHostPort] succeed *)
Definition ListenAndServe {C : Type} (resolve listen split : bool)
    (script : list (iteration C)) : list (listen_event C) * returned :=
  if negb resolve then ([], ReturnsError ResolveTCPAddress)
  else if negb listen then ([], ReturnsError ListenTCP)
  else if negb split then ([Listening], ReturnsError GetHostAndPort)
  else
    let '(events, r) := serve_loop script in
    ([Listening; LogListener LevelInfo] ++ events, r).

(** the connections accepted before the loop stops *)
Fixpoint accepted_before_stop {C : Type} (script : list (iteration C)) : list C :=
  match script with
  | Accepted conn :: script' => conn :: accepted_before_stop script'
  | AcceptTimeout :: script' => accepted_before_stop script'
  | _ => []
  end.

(** the connections handed to the handler *)
Fixpoint served_conns {C : Type} (events : list (listen_event C)) : list C :=
  match events with
  | [] => []
  | GoServeTCP conn :: events' => conn :: served_conns events'
  | _ :: events' => served_conns events'
  end.

(** the number of [Close] calls on the listener *)
Fixpoint listener_closes {C : Type} (events : list (listen_event C)) : nat :=
  match events with
  | [] => O
  | CloseListener :: events' => S (listener_closes events')
  | _ :: events' => listener_closes events'
  end.

(** the script without the iterations whose [Accept] times out *)
Definition without_timeouts {C : Type} (script : list (iteration C))
  : list (iteration C) :=
  filter (fun i => match i with AcceptTimeout => false | _ => true end) script.
End tcp.

(** ** Package [handler]: the connection handlers *)

Module conn_handler.
Import logger.
Local Open Scope list_scope.

(** a Go [error] value as the handlers tell them apart: [io.EOF], a
    [net.Error] that is not [io.EOF], an error of package [pow] or of
    package [service], any other error, and
    [fmt.Errorf("read from closed connection: %w", err)] *)
Inductive go_error : Type :=
| EOF
| NetError
| PowError (e : error)
| QuoteError (e : service.quote_error)
| OtherError
| ReadFromClosed (e : go_error).

(** [errors.Is(err, io.EOF)], which looks through the [%w] wrapping *)
Fixpoint is_EOF (e : go_error) : bool :=
  match e with
  | EOF => true
  | ReadFromClosed e' => is_EOF e'
  | _ => false
  end.

(** [err.(net.Error)] *)
Definition is_net_Error (e : go_error) : bool :=
  match e with NetError => true | _ => false end.

(** what a handler does that can be seen from outside: a call of the
    logger, of the connection, or of the next handler *)
Inductive event : Type :=
| Log (level : Level) (msg : string)
| ConnRead
| ConnWrite (msg : string)
| ConnClose
| NextServeTCP.

(** [type Logger interface]: its implementations return from every call
    but for [Error] on a nil [err], where they differ *)
Record Logger : Type := mkLogger {
  Error_nil_returns : bool
}.

(** [func (z ZapLogger) Error(err error, kvs ...interface{})] ends in
    [z.zap.Errorw(err.Error(), kvs...)]: the method call on a nil [err]
    is a nil dereference *)
Definition ZapLogger : Logger := mkLogger false.

(** the generated mock of the tests, which records the call *)
Definition MockLogger : Logger := mkLogger true.

(** [h.log.Error(err, ...)] *)
Definition Error_returns (l : Logger) (err : option go_error) : bool :=
  match err with Some _ => true | None => Error_nil_returns l end.

(** the connection as the handlers meet it: whether [Write] of a message
    and [Close] return an error *)
Record Conn : Type := mkConn {
  Write_fails : string -> bool;
  Close_fails : bool
}.

(** [func closeConn(conn tcp.Conn, log logger.Logger)] *)
Definition closeConn (conn : Conn) : list event :=
  [Log LevelDebug "close TCP connection"; ConnClose]
  ++ (if Close_fails conn then [Log LevelError "close TCP connection"] else []).

(** [func writeMessage(message string, conn tcp.Conn, log logger.Logger)] *)
Definition writeMessage (message : string) (conn : Conn) : list event :=
  [Log LevelInfo "write message"; ConnWrite message]
  ++ (if Write_fails conn message then [Log LevelError "write message"] else []).

(** [func handleCtxDone(ctx context.Context, conn tcp.Conn, log logger.Logger)] *)
Definition handleCtxDone (conn : Conn) : list event :=
  [Log LevelWarn "context done"] ++ writeMessage "context done" conn ++ closeConn conn.

(** how a handler's flow ends: it returns, or a panic takes the process
    down *)
Inductive ending : Type := Returns | Panics.

(** the events of the flow that called [ServeTCP] and how it ends, and
    the events of the goroutine it started, when that runs to its end, and
    how it ends; a goroutine that stays blocked counts as one that
    [Returns] *)
Record run : Type := mkRun {
  flow : list event;
  flow_end : ending;
  goroutine : list event;
  goroutine_end : ending
}.

(** *** [ProofOfWork] *)

(** [type ProofOfWork struct]: [challenge] gives the pair that
    [pow.ChallengeFunc] returns, [verify] the outcome of [pow.VerifyFunc]
    ([OutOfFuel]: the call does not return); [handler] is the events of the
    next handler's [ServeTCP] *)
Record ProofOfWork : Type := mkProofOfWork {
  challenge : Z -> string -> string * option go_error;
  verify : string -> string -> res bool;
  complexity : Z;
  handler : list event;
  log : Logger
}.

(** what the outside does during one [ServeTCP]: the two reads, the value
    of the random source, the UUID, and whether the [select] finds
    [timeOut.Done()] before a verification result *)
Record World : Type := mkWorld {
  first_read : string * option go_error;
  second_read : string * option go_error;
  draw : Z;
  uuid : string;
  deadline_first : bool
}.

(** [type verificationResult struct] *)
Record verificationResult : Type := mkVerificationResult {
  ok : bool;
  header : string;
  err : option go_error
}.

(** [func (h *ProofOfWork) getVerificationResult(v chan verificationResult,
    challenge string, conn tcp.Conn)]: its events, what it sends on [v] if
    anything, and how it ends *)
Definition getVerificationResult (h : ProofOfWork) (w : World) (conn : Conn)
    (challenge_str : string) : list event * option verificationResult * ending :=
  let '(tmp, err) := second_read w in
  match err with
  | Some err =>
      if is_EOF err then ([ConnRead] ++ closeConn conn, None, Returns)
      else if is_net_Error err then
        ([ConnRead], Some (mkVerificationResult false EmptyString (Some (ReadFromClosed err))),
         Returns)
      else ([ConnRead; Log LevelError "read from connection"], None, Returns)
  | None =>
      let header := tmp in
      let events := [ConnRead; Log LevelDebug "header to verify"] in
      match verify h header challenge_str with
      | Ok ok => (events, Some (mkVerificationResult ok header None), Returns)
      | Err e => (events, Some (mkVerificationResult false header (Some (PowError e))), Returns)
      | Panic _ => (events, None, Panics)
      | OutOfFuel => (events, None, Returns)
      end
  end.

(** the [select] of [ServeTCP] and what follows it; [err] is the variable
    [err] of [ServeTCP], last assigned by the call of [h.challenge]; the
    context [timeOut] is done in the end, so a goroutine that sends
    nothing leaves the first case, unless its panic ends the process
    before *)
Definition ServeTCP_select (h : ProofOfWork) (w : World) (conn : Conn)
    (err : option go_error) (sent : option verificationResult) (g_end : ending)
    : list event * ending :=
  match (if deadline_first w then None else sent) with
  | None => (* case <-timeOut.Done() *)
      match deadline_first w, g_end with
      | false, Panics => ([], Panics)
      | _, _ => (handleCtxDone conn, Returns)
      end
  | Some v => (* case v := <-verification *)
      match conn_handler.err v with
      | Some _ =>
          if Error_returns (log h) err then
            ([Log LevelError "verify PoW"]
             ++ writeMessage "internal error on verifying PoW" conn ++ closeConn conn,
             Returns)
          else ([], Panics)
      | None =>
          if negb (ok v) then
            ([Log LevelWarn "PoW verification failed"]
             ++ writeMessage "PoW verification failed" conn ++ closeConn conn, Returns)
          else
            ([Log LevelInfo "PoW verification passed"] ++ [NextServeTCP] ++ handler h,
             Returns)
      end
  end.

(** [func (h *ProofOfWork) ServeTCP(ctx context.Context, conn tcp.Conn)] *)
Definition ServeTCP (h : ProofOfWork) (w : World) (conn : Conn) : run :=
  let '(tmp, err) := first_read w in
  if match err with Some e => negb (is_EOF e) | None => false end then
    mkRun ([ConnRead; Log LevelError "read from connection"] ++ closeConn conn)
          Returns [] Returns
  else
    let events := [ConnRead; Log LevelInfo "got message"] in
    match handler.ServeTCP_bits (complexity h) (draw w) with
    | Ok bits =>
        let resource := uuid w in
        let '(challenge_str, err) := challenge h (Int.to_uint64 bits) resource in
        let events := events ++ writeMessage challenge_str conn in
        let '(g_events, sent, g_end) := getVerificationResult h w conn challenge_str in
        let '(s_events, s_end) := ServeTCP_select h w conn err sent g_end in
        mkRun (events ++ s_events) s_end g_events g_end
    | _ => (* rand.Intn panics *)
        mkRun events Panics [] Returns
    end.

(** *** [WordOfWisdomHandler] *)

(** [func (h *WordOfWisdomHandler) ServeTCP(ctx context.Context, conn
    tcp.Conn)] with [getQuoteResult]: [quote] is what [h.srv.Quote()] comes
    to, [cancel_first] whether the [select] finds [ctx.Done()] before the
    quote *)
Definition WordOfWisdom_ServeTCP (quote : service.quoted) (cancel_first : bool)
    (conn : Conn) : run :=
  match quote with
  | service.QuotePanic _ =>
      (* the goroutine panics; the flow is at the select *)
      if cancel_first then mkRun (handleCtxDone conn) Returns [] Panics
      else mkRun [] Panics [] Panics
  | service.QuoteErr e =>
      if cancel_first then mkRun (handleCtxDone conn) Returns [] Returns
      else mkRun ([Log LevelError "get quote"]
                  ++ writeMessage "cannot get a quote" conn ++ closeConn conn)
                 Returns [] Returns
  | service.Quoted q =>
      if cancel_first then mkRun (handleCtxDone conn) Returns [] Returns
      else mkRun (writeMessage q conn ++ closeConn conn) Returns [] Returns
  end.

(** the calls on the connection and of the next handler among the events *)
Definition conn_events (events : list event) : list event :=
  filter (fun e => match e with Log _ _ => false | _ => true end) events.

(** the number of calls of the logger at [level] among the events *)
Definition count_Log (level : Level) (events : list event) : nat :=
  List.length (filter (fun e => match e with
                                | Log l _ => match l, level with
                                             | LevelError, LevelError
                                             | LevelWarn, LevelWarn
                                             | LevelInfo, LevelInfo
                                             | LevelDebug, LevelDebug => true
                                             | _, _ => false
                                             end
                                | _ => false
                                end) events).

(** the number of [Close] calls among the events *)
Definition count_Close (events : list event) : nat :=
  List.length (filter (fun e => match e with ConnClose => true | _ => false end) events).

(** [pow.Challenge] as the [ChallengeFunc] of the server: [now], [nonce]
    and [int63] are the clock and the random source at the call; with
    [math/rand] the error is nil *)
Definition pow_Challenge (now nonce : string) (int63 : Z)
    : Z -> string -> string * option go_error :=
  fun bits resource => (Challenge bits resource now nonce int63, None).

(** [pow.Verify] as the [VerifyFunc] of the server, on the package-level
    hasher as it stands at the call *)
Definition pow_Verify (timefmt_Parse : string -> bool) (Sum256 : string -> list byte)
    (hasher : Hash) : string -> string -> res bool :=
  fun calculated challenge_str =>
    fst (Verify timefmt_Parse Sum256 calculated challenge_str hasher).

(** *** Vocabulary and data of the handler runs *)

(** the first read of [ServeTCP] ends the flow: an error that is not
    [io.EOF] *)
Definition first_read_fatal (w : World) : bool :=
  match snd (first_read w) with
  | Some e => negb (is_EOF e)
  | None => false
  end.

(** the three notices of [ProofOfWork.ServeTCP] *)
Definition notices : list string :=
  ["context done"; "internal error on verifying PoW"; "PoW verification failed"].

(** the handler and the connection of [pow_test.go]: the mocks of the
    challenge and verify functions, a next handler that closes the
    connection, writes that succeed *)
Definition test_handler (verified : bool) : ProofOfWork :=
  mkProofOfWork (fun _ _ => (challenge12, None))
                (fun _ _ => Ok verified) 20 [ConnClose] MockLogger.
Definition test_conn : Conn := mkConn (fun _ => false) false.
Definition test_world (answer : string) (deadline : bool) : World :=
  mkWorld ("ping", None) (answer, None) 5 "f1a5a003-27ce-4e62-8c48-14c250965b92" deadline.

(** the calls a run of [ProofOfWork.ServeTCP] makes on the connection and
    on the next handler, case by case *)
Inductive served (h : ProofOfWork) : list event -> ending -> Prop :=
| served_fatal_read : served h [ConnRead; ConnClose] Returns
| served_Intn_panic : served h [ConnRead] Panics
| served_notice challenge_str notice :
    In notice notices ->
    served h [ConnRead; ConnWrite challenge_str; ConnWrite notice; ConnClose] Returns
| served_log_panic challenge_str :
    Error_nil_returns (log h) = false ->
    served h [ConnRead; ConnWrite challenge_str] Panics
| served_goroutine_panic challenge_str :
    served h [ConnRead; ConnWrite challenge_str] Panics
| served_passed challenge_str :
    served h ([ConnRead; ConnWrite challenge_str; NextServeTCP] ++ conn_events (handler h))
           Returns.

(** the [ProofOfWork] of [cmd/server]: [pow.Challenge] and [pow.Verify] *)
Definition server_handler (timefmt_Parse : string -> bool) (Sum256 : string -> list byte)
    (hasher : Hash) (now nonce : string) (int63 : Z) (complexity : Z)
    (next : list event) (log : Logger) : ProofOfWork :=
  mkProofOfWork (pow_Challenge now nonce int63) (pow_Verify timefmt_Parse Sum256 hasher)
                complexity next log.


(** a server of complexity 11, whose challenges have 10 bits, and a client
    that reads the challenge with counter 1557 and answers with counter
    1559, what [Calculate] returns *)
Definition honest_server : ProofOfWork :=
  server_handler timefmt.Parse_FormatDate sha256.Sum256 Concrete.hasher
                 "2201010000" "0123456789" 1557 11 [] ZapLogger.
Definition honest_world : World :=
  mkWorld ("ping", None)
          ("1:10:2201010000:f1a5a003-27ce-4e62-8c48-14c250965b92::MDEyMzQ1Njc4OQ==:MTU1OQ==",
           None)
          7 "f1a5a003-27ce-4e62-8c48-14c250965b92" false.
End conn_handler.

(** * Facts about the bit test *)

Lemma count_leading_zeros_nonneg (bs : list bool) : 0 <= count_leading_zeros bs.
Proof. induction bs as [|[|] bs IH]; cbn [count_leading_zeros]; lia. Qed.

Lemma byte_val_range (b : byte) : 0 <= byte_val b < 256.
Proof.
  unfold byte_val. pose proof (N_ascii_bounded b). lia.
Qed.

Lemma byte_val_zero (b : byte) : byte_val b = 0 <-> b = zero.
Proof.
  split; intros H.
  - unfold byte_val in H. rewrite <- (ascii_N_embedding b).
    replace (N_of_ascii b) with 0%N by lia. reflexivity.
  - subst b. reflexivity.
Qed.

Lemma val_byte_val (b : byte) : val_byte (byte_val b) = b.
Proof.
  unfold val_byte. rewrite Z.mod_small by apply byte_val_range.
  unfold byte_val. rewrite N2Z.id. apply ascii_N_embedding.
Qed.

(** the switch compares the byte with [2^(8-modulo)] *)
Lemma checkBits_switch_threshold (modulo b : Z) :
  0 < modulo < 8 -> checkBits_switch modulo b = (b <? 2 ^ (8 - modulo)).
Proof.
  intros H.
  assert (Hc : modulo = 1 \/ modulo = 2 \/ modulo = 3 \/ modulo = 4 \/
               modulo = 5 \/ modulo = 6 \/ modulo = 7) by lia.
  unfold checkBits_switch.
  repeat (destruct Hc as [-> | Hc]); try subst modulo;
    match goal with
    | |- (if ?b >? ?k then _ else _) = _ =>
        change (2 ^ _) with (k + 1); destruct (Z.gtb_spec b k), (Z.ltb_spec b (k + 1)); lia
    end.
Qed.

(** a byte lies under [2^(8-r)] exactly when its top [r] bits are zero *)
Lemma byte_threshold_bits (r : Z) (b : byte) :
  0 < r < 8 ->
  (byte_val b <? 2 ^ (8 - r)) = (r <=? count_leading_zeros (byte_bits b)).
Proof.
  intros H.
  assert (Hc : r = 1 \/ r = 2 \/ r = 3 \/ r = 4 \/ r = 5 \/ r = 6 \/ r = 7) by lia.
  destruct b as [b0 b1 b2 b3 b4 b5 b6 b7].
  repeat (destruct Hc as [-> | Hc]); try subst r;
    destruct b7, b6, b5, b4, b3, b2, b1, b0; reflexivity.
Qed.

Lemma byte_bits_zero (b : byte) (rest : list bool) :
  byte_val b = 0 ->
  count_leading_zeros (byte_bits b ++ rest) = 8 + count_leading_zeros rest.
Proof.
  intros H. apply byte_val_zero in H. subst b.
  unfold zero. cbn [byte_bits app count_leading_zeros]. lia.
Qed.

Lemma byte_bits_nonzero (b : byte) (rest : list bool) :
  byte_val b <> 0 ->
  count_leading_zeros (byte_bits b ++ rest) = count_leading_zeros (byte_bits b)
  /\ count_leading_zeros (byte_bits b) < 8.
Proof.
  intros H.
  destruct b as [b0 b1 b2 b3 b4 b5 b6 b7].
  destruct b7, b6, b5, b4, b3, b2, b1, b0;
    try (exfalso; apply H; reflexivity);
    cbn [byte_bits app count_leading_zeros]; split; lia.
Qed.

Lemma leading_zero_bits_cons (b : byte) (d : list byte) :
  leading_zero_bits (b :: d) =
    if byte_val b =? 0 then 8 + leading_zero_bits d
    else count_leading_zeros (byte_bits b).
Proof.
  unfold leading_zero_bits, digest_bits. cbn [flat_map].
  destruct (Z.eqb_spec (byte_val b) 0) as [E | E].
  - apply byte_bits_zero; assumption.
  - apply byte_bits_nonzero; assumption.
Qed.

Lemma leading_zero_bits_nonneg (d : list byte) : 0 <= leading_zero_bits d.
Proof. apply count_leading_zeros_nonneg. Qed.

Lemma checkBits_range_Forall (l : list byte) :
  checkBits_range l = true <-> Forall (fun b => byte_val b = 0) l.
Proof.
  induction l as [|b l IH]; simpl.
  - split; auto.
  - destruct (Z.eqb_spec (byte_val b) 0) as [E | E]; simpl.
    + rewrite IH. split; intros H; [constructor; assumption | inversion H; assumption].
    + split; [discriminate | intros H; inversion H; contradiction].
Qed.

(** one zero byte in front shifts the test by eight bits *)
Lemma checkBits_cons_zero (b : byte) (d : list byte) (bits : Z) :
  8 <= bits -> byte_val b = 0 ->
  checkBits (b :: d) bits = checkBits d (bits - 8).
Proof.
  intros Hb Hz. unfold checkBits.
  replace ((bits - 8) mod 8) with (bits mod 8) by (Z.div_mod_to_equations; lia).
  replace ((bits - 8) / 8) with (bits / 8 - 1) by (Z.div_mod_to_equations; lia).
  assert (Hq : 1 <= bits / 8) by (Z.div_mod_to_equations; lia).
  replace (Z.to_nat (bits / 8)) with (S (Z.to_nat (bits / 8 - 1))) by lia.
  cbn [List.length firstn nth_error checkBits_range].
  rewrite Hz. cbn [Z.eqb negb].
  rewrite Nat2Z.inj_succ.
  destruct (Z.ltb_spec (Z.succ (Z.of_nat (List.length d))) (bits / 8)),
           (Z.ltb_spec (Z.of_nat (List.length d)) (bits / 8 - 1)); try lia; reflexivity.
Qed.

(** The bit test counts leading zero bits, for every target the digest is
    long enough for. *)
Lemma checkBits_counts (d : list byte) : forall bits : Z,
  0 <= bits <= 8 * Z.of_nat (List.length d) ->
  checkBits d bits = Ok (bits <=? leading_zero_bits d).
Proof.
  induction d as [|b d IH]; intros bits H.
  - cbn [List.length] in H. assert (bits = 0) by lia. subst bits. reflexivity.
  - rewrite leading_zero_bits_cons.
    destruct (Z_lt_le_dec bits 8) as [Hs | Hl].
    + (* the target ends inside the first byte *)
      unfold checkBits.
      rewrite (Z.div_small bits 8), (Z.mod_small bits 8) by lia.
      cbn [Z.to_nat firstn checkBits_range negb nth_error List.length].
      destruct (Z.ltb_spec (Z.of_nat (S (List.length d))) 0) as [? | _]; [lia |].
      destruct (Z.gtb_spec bits 0) as [Hp | Hp].
      * rewrite checkBits_switch_threshold, byte_threshold_bits by lia.
        assert (Hx : (bits <=? (if byte_val b =? 0 then 8 + leading_zero_bits d
                                else count_leading_zeros (byte_bits b)))
                     = (bits <=? count_leading_zeros (byte_bits b))).
        { destruct (Z.eqb_spec (byte_val b) 0) as [E | E]; [| reflexivity].
          rewrite (proj1 (byte_val_zero b) E).
          change (count_leading_zeros (byte_bits zero)) with 8.
          pose proof (leading_zero_bits_nonneg d).
          destruct (Z.leb_spec bits 8), (Z.leb_spec bits (8 + leading_zero_bits d));
            try lia; reflexivity. }
        rewrite Hx. destruct (bits <=? count_leading_zeros (byte_bits b)); reflexivity.
      * assert (bits = 0) by lia. subst bits.
        pose proof (leading_zero_bits_nonneg d).
        pose proof (count_leading_zeros_nonneg (byte_bits b)).
        destruct (byte_val b =? 0);
          match goal with |- _ = Ok (0 <=? ?x) =>
            destruct (Z.leb_spec 0 x); [reflexivity | lia] end.
    + destruct (Z.eqb_spec (byte_val b) 0) as [E | E].
      * rewrite checkBits_cons_zero by assumption.
        rewrite IH by (cbn [List.length] in H; lia).
        f_equal.
        destruct (Z.leb_spec (bits - 8) (leading_zero_bits d)),
                 (Z.leb_spec bits (8 + leading_zero_bits d)); try lia; reflexivity.
      * (* the range loop stops at the first byte *)
        unfold checkBits.
        assert (Hq : 1 <= bits / 8) by (Z.div_mod_to_equations; lia).
        assert (Hq' : bits / 8 <= Z.of_nat (List.length (b :: d)))
          by (Z.div_mod_to_equations; lia).
        destruct (Z.ltb_spec (Z.of_nat (List.length (b :: d))) (bits / 8)) as [? | _]; [lia |].
        replace (Z.to_nat (bits / 8)) with (S (Z.to_nat (bits / 8 - 1))) by lia.
        cbn [firstn checkBits_range].
        destruct (Z.eqb_spec (byte_val b) 0) as [? | _]; [contradiction |].
        cbn [negb].
        destruct (byte_bits_nonzero b [] E) as [_ Hlt].
        destruct (Z.leb_spec bits (count_leading_zeros (byte_bits b))); [lia | reflexivity].
Qed.

(** the test in the words of quotient and modulo *)
Lemma checkBits_quotient_modulo (d : list byte) (bits : Z) :
  0 <= bits <= 8 * Z.of_nat (List.length d) ->
  checkBits d bits = Ok true <->
    Forall (fun b => byte_val b = 0) (firstn (Z.to_nat (bits / 8)) d) /\
    (bits mod 8 > 0 ->
     exists b, nth_error d (Z.to_nat (bits / 8)) = Some b /\
               byte_val b < 2 ^ (8 - bits mod 8)).
Proof.
  intros H. unfold checkBits.
  assert (Hm : 0 <= bits mod 8 < 8) by (apply Z.mod_pos_bound; lia).
  assert (Hq : 0 <= bits / 8 <= Z.of_nat (List.length d))
    by (Z.div_mod_to_equations; lia).
  destruct (Z.ltb_spec (Z.of_nat (List.length d)) (bits / 8)) as [? | _]; [lia |].
  rewrite <- checkBits_range_Forall.
  destruct (checkBits_range (firstn (Z.to_nat (bits / 8)) d)); cbn [negb].
  2: { split; [discriminate | intros [? _]; discriminate]. }
  destruct (Z.gtb_spec (bits mod 8) 0) as [Hp | Hp].
  - assert (Hlt : (Z.to_nat (bits / 8) < List.length d)%nat)
      by (Z.div_mod_to_equations; lia).
    destruct (nth_error d (Z.to_nat (bits / 8))) as [b |] eqn:Hn.
    2: { apply nth_error_None in Hn. lia. }
    rewrite checkBits_switch_threshold by lia.
    destruct (Z.ltb_spec (byte_val b) (2 ^ (8 - bits mod 8))) as [Hb | Hb]; cbn [negb].
    + split; [intros _ | reflexivity].
      split; [reflexivity | intros _; exists b; split; [reflexivity | assumption]].
    + split; [discriminate |].
      intros [_ Hex]. destruct Hex as [b' [Hb' Hlt']]; [lia |].
      inversion Hb'; subst b'. lia.
  - split; [intros _ | reflexivity].
    split; [reflexivity | intros; lia].
Qed.

(** the test reads the bytes up to index [bits / 8] and no other *)
Lemma checkBits_prefix (d : list byte) (bits : Z) :
  0 <= bits ->
  (Z.to_nat (bits / 8) < List.length d)%nat ->
  checkBits d bits = checkBits (firstn (S (Z.to_nat (bits / 8))) d) bits.
Proof.
  intros H0 Hlt. unfold checkBits.
  assert (Hq : 0 <= bits / 8) by (Z.div_mod_to_equations; lia).
  rewrite length_firstn, firstn_firstn, nth_error_firstn.
  replace (Nat.min (Z.to_nat (bits / 8)) (S (Z.to_nat (bits / 8))))
    with (Z.to_nat (bits / 8)) by lia.
  destruct (Nat.ltb_spec (Z.to_nat (bits / 8)) (S (Z.to_nat (bits / 8)))) as [_ | ?]; [| lia].
  destruct (Z.ltb_spec (Z.of_nat (List.length d)) (bits / 8)),
           (Z.ltb_spec (Z.of_nat (Nat.min (S (Z.to_nat (bits / 8))) (List.length d))) (bits / 8));
    try lia; reflexivity.
Qed.

(** * Facts about the library functions *)

Module strings_facts.
Import strings.

Lemma contains_app (p q : string) (c : byte) :
  contains (p ++ q) c = contains p c || contains q c.
Proof.
  induction p as [|a p IH]; cbn [append contains]; [reflexivity |].
  rewrite IH, orb_assoc. reflexivity.
Qed.

Lemma Split_nonempty (s : string) (sep : byte) : Split s sep <> [].
Proof.
  destruct s as [|c s]; cbn [Split]; [discriminate |].
  destruct (Ascii.eqb c sep); [discriminate |].
  destruct (Split s sep); discriminate.
Qed.

(** a piece without the separator, then the separator *)
Lemma Split_piece (p rest : string) (sep : byte) :
  contains p sep = false ->
  Split (p ++ String sep rest) sep = p :: Split rest sep.
Proof.
  induction p as [|a p IH]; cbn [append contains Split]; intros H.
  - rewrite Ascii.eqb_refl. reflexivity.
  - apply orb_false_iff in H. destruct H as [Ha Hp].
    rewrite Ha, (IH Hp). reflexivity.
Qed.

Lemma Split_last (p : string) (sep : byte) :
  contains p sep = false -> Split p sep = [p].
Proof.
  induction p as [|a p IH]; cbn [contains Split]; intros H; [reflexivity |].
  apply orb_false_iff in H. destruct H as [Ha Hp].
  rewrite Ha, (IH Hp). reflexivity.
Qed.

(** splitting undoes joining when no piece holds the separator *)
Lemma Split_Join (pieces : list string) (sep : byte) :
  pieces <> [] ->
  Forall (fun p => contains p sep = false) pieces ->
  Split (Join pieces sep) sep = pieces.
Proof.
  induction pieces as [|p ps IH]; intros Hne Hall; [contradiction |].
  inversion Hall as [|? ? Hp Hps]; subst.
  destruct ps as [|p' ps].
  - cbn [Join]. apply Split_last; assumption.
  - change (Join (p :: p' :: ps) sep) with (p ++ String sep (Join (p' :: ps) sep)).
    rewrite Split_piece by assumption.
    rewrite IH; [reflexivity | discriminate | assumption].
Qed.

(** no piece of a split holds the separator *)
Lemma Split_pieces (s : string) (sep : byte) :
  Forall (fun p => contains p sep = false) (Split s sep).
Proof.
  induction s as [|c s IH]; cbn [Split].
  - constructor; [reflexivity | constructor].
  - destruct (Ascii.eqb c sep) eqn:E.
    + constructor; [reflexivity | assumption].
    + pose proof (Split_nonempty s sep) as Hn.
      destruct (Split s sep) as [|p ps]; [contradiction |].
      inversion IH; subst. constructor; [| assumption].
      cbn [contains]. rewrite E. assumption.
Qed.

(** joining undoes splitting *)
Lemma Join_Split (s : string) (sep : byte) : Join (Split s sep) sep = s.
Proof.
  induction s as [|c s IH]; cbn [Split]; [reflexivity |].
  destruct (Ascii.eqb_spec c sep) as [-> | Hne].
  - pose proof (Split_nonempty s sep) as Hn.
    destruct (Split s sep) as [|p ps]; [contradiction |].
    change (Join ("" :: p :: ps) sep) with (String sep (Join (p :: ps) sep)).
    rewrite IH. reflexivity.
  - pose proof (Split_nonempty s sep) as Hn.
    destruct (Split s sep) as [|p ps]; [contradiction |].
    destruct ps as [|p' ps]; cbn [Join append] in *; rewrite IH; reflexivity.
Qed.
End strings_facts.

Module strconv_facts.
Import strconv.

Lemma digit_char_val (d : Z) :
  0 <= d < 10 ->
  digit_val (digit_char d) = Some d /\
  Ascii.eqb (digit_char d) ":"%char = false /\
  Ascii.eqb (digit_char d) "+"%char = false /\
  Ascii.eqb (digit_char d) "-"%char = false.
Proof.
  intros H.
  assert (Hc : d = 0 \/ d = 1 \/ d = 2 \/ d = 3 \/ d = 4 \/ d = 5 \/ d = 6 \/
               d = 7 \/ d = 8 \/ d = 9) by lia.
  repeat (destruct Hc as [-> | Hc]); try subst d; repeat split; reflexivity.
Qed.

(** the digits [format_digits] puts before [acc] read back as [u] *)
Lemma parse_format_digits (fuel : nat) : forall (u : Z) (acc : string),
  0 <= u < 10 ^ Z.of_nat fuel ->
  exists k : Z, 0 <= k /\
    forall v : Z, parse_digits (format_digits fuel u acc) v
                  = parse_digits acc (v * 10 ^ k + u).
Proof.
  induction fuel as [|fuel IH]; intros u acc Hu.
  - exists 0. split; [lia |]. intros v. cbn [format_digits].
    f_equal. change (10 ^ Z.of_nat 0) with 1 in Hu. lia.
  - cbn [format_digits].
    assert (Hd : 0 <= u mod 10 < 10) by (apply Z.mod_pos_bound; lia).
    destruct (digit_char_val _ Hd) as [Hdv _].
    destruct (Z.eqb_spec (u / 10) 0) as [E | E].
    + exists 1. split; [lia |]. intros v. cbn [parse_digits]. rewrite Hdv.
      f_equal. Z.div_mod_to_equations. lia.
    + rewrite Nat2Z.inj_succ, Z.pow_succ_r in Hu by lia.
      destruct (IH (u / 10) (String (digit_char (u mod 10)) acc)) as [k [Hk Hp]].
      { Z.div_mod_to_equations. lia. }
      exists (k + 1). split; [lia |]. intros v.
      rewrite Hp. cbn [parse_digits]. rewrite Hdv. f_equal.
      rewrite Z.pow_add_r by lia. Z.div_mod_to_equations. lia.
Qed.

Lemma contains_format_digits (fuel : nat) : forall (u : Z) (acc : string),
  strings.contains (format_digits fuel u acc) ":"%char
  = strings.contains acc ":"%char.
Proof.
  induction fuel as [|fuel IH]; intros u acc; cbn [format_digits]; [reflexivity |].
  assert (Hd : 0 <= u mod 10 < 10) by (apply Z.mod_pos_bound; lia).
  destruct (digit_char_val _ Hd) as [_ [Hc _]].
  destruct (u / 10 =? 0); [| rewrite IH]; cbn [strings.contains]; rewrite Hc; reflexivity.
Qed.

Lemma format_digits_starts (fuel : nat) : forall (u : Z) (acc : string),
  (fuel <> O \/ starts_with_digit acc) ->
  starts_with_digit (format_digits fuel u acc).
Proof.
  induction fuel as [|fuel IH]; intros u acc H; cbn [format_digits].
  - destruct H as [H | H]; [contradiction | assumption].
  - assert (Hd : 0 <= u mod 10 < 10) by (apply Z.mod_pos_bound; lia).
    destruct (u / 10 =? 0).
    + exists (u mod 10). split; [assumption | reflexivity].
    + apply IH. right. exists (u mod 10). split; [assumption | reflexivity].
Qed.

Lemma FormatUint_starts (u : Z) : starts_with_digit (FormatUint u).
Proof. apply format_digits_starts. left. discriminate. Qed.

Lemma parse_FormatUint (u : Z) :
  0 <= u < 2 ^ 64 -> parse_digits (FormatUint u) 0 = Some u.
Proof.
  intros H. unfold FormatUint.
  destruct (parse_format_digits 20 u EmptyString) as [k [_ Hp]].
  { change (10 ^ Z.of_nat 20) with 100000000000000000000. lia. }
  rewrite Hp. reflexivity.
Qed.

Lemma contains_FormatUint (u : Z) :
  strings.contains (FormatUint u) ":"%char = false.
Proof. unfold FormatUint. rewrite contains_format_digits. reflexivity. Qed.

Lemma contains_FormatInt (i : Z) :
  strings.contains (FormatInt i) ":"%char = false.
Proof.
  unfold FormatInt. destruct (i <? 0); cbn [strings.contains];
    rewrite contains_FormatUint; reflexivity.
Qed.

(** a non-negative number that fits [bitSize] bits reads back *)
Lemma ParseInt_FormatUint (u bitSize : Z) :
  0 <= u < 2 ^ 64 -> u < 2 ^ (bitSize - 1) ->
  ParseInt (FormatUint u) bitSize = Some u.
Proof.
  intros Hu Hb. pose proof (FormatUint_starts u) as Hs.
  pose proof (parse_FormatUint u Hu) as Hp.
  unfold ParseInt. destruct (FormatUint u) as [|c s]; [contradiction |].
  destruct Hs as [d [Hd ->]].
  destruct (digit_char_val d Hd) as [_ [_ [Hplus Hminus]]].
  rewrite Hplus, Hminus, Hp. cbn [negb andb].
  destruct (Z.leb_spec (2 ^ (bitSize - 1)) u); [lia | reflexivity].
Qed.

Lemma Atoi_FormatUint (u : Z) :
  0 <= u < 2 ^ 63 -> Atoi (FormatUint u) = Some u.
Proof.
  intros H. unfold Atoi. apply ParseInt_FormatUint.
  - lia.
  - change (2 ^ (64 - 1)) with (2 ^ 63). lia.
Qed.

(** every [int64] reads back from its decimal text *)
Lemma ParseInt_FormatInt (i : Z) :
  Int.is_int64 i -> ParseInt (FormatInt i) 64 = Some i.
Proof.
  unfold Int.is_int64, Int.minInt64, Int.maxInt64. intros H.
  unfold FormatInt. destruct (Z.ltb_spec i 0) as [Hn | Hn].
  - pose proof (FormatUint_starts (- i)) as Hs.
    assert (Hu : 0 <= - i < 2 ^ 64) by lia.
    pose proof (parse_FormatUint (- i) Hu) as Hp.
    unfold ParseInt.
    change (Ascii.eqb "-" "+") with false. change (Ascii.eqb "-" "-") with true.
    cbv iota.
    destruct (FormatUint (- i)) as [|c s]; [contradiction |].
    rewrite Hp. cbn [negb andb].
    change (2 ^ (64 - 1)) with (2 ^ 63).
    destruct (Z.ltb_spec (2 ^ 63) (- i)); [lia |].
    f_equal. lia.
  - apply ParseInt_FormatUint; [lia |].
    change (2 ^ (64 - 1)) with (2 ^ 63). lia.
Qed.
End strconv_facts.

Module base64_facts.
Import base64.

(** induction over a byte sequence three bytes at a time *)
Lemma string_ind3 (P : string -> Prop) :
  P EmptyString ->
  (forall a, P (String a EmptyString)) ->
  (forall a b, P (String a (String b EmptyString))) ->
  (forall a b c rest, P rest -> P (String a (String b (String c rest)))) ->
  forall s, P s.
Proof.
  intros H0 H1 H2 H3 s.
  assert (H : P s /\ (forall a, P (String a s)) /\ (forall a b, P (String a (String b s)))).
  { induction s as [|c s [IHs [IH1 IH2]]].
    - auto.
    - split; [apply IH1 |]. split; [intros a; apply IH2 |].
      intros a b. apply H3. exact IHs. }
  apply H.
Qed.

(** the decode map inverts the alphabet, whose characters are neither
    line breaks nor padding nor colons *)
Lemma encode_char_props (v : Z) :
  0 <= v < 64 ->
  decode_char (encode_char v) = Some v /\
  is_newline (encode_char v) = false /\
  Ascii.eqb (encode_char v) padChar = false /\
  Ascii.eqb (encode_char v) ":"%char = false.
Proof.
  intros H.
  rewrite <- (Z2Nat.id v) by lia.
  assert (Hn : (Z.to_nat v < 64)%nat) by lia.
  generalize dependent (Z.to_nat v). clear v H. intros n Hn.
  do 64 (destruct n as [|n]; [repeat split; reflexivity |]).
  lia.
Qed.

Ltac sextet := Z.div_mod_to_equations; lia.

Lemma strip_newlines_EncodeToString : forall src : string,
  strip_newlines (EncodeToString src) = EncodeToString src.
Proof.
  induction src as [| a | a b | a b c rest IH] using string_ind3;
    try pose proof (byte_val_range a); try pose proof (byte_val_range b); try pose proof (byte_val_range c);
    cbn [EncodeToString strip_newlines].
  - reflexivity.
  - destruct (encode_char_props (byte_val a / 4)) as [_ [-> _]]; [sextet |].
    destruct (encode_char_props (byte_val a mod 4 * 16)) as [_ [-> _]]; [sextet |].
    reflexivity.
  - destruct (encode_char_props (byte_val a / 4)) as [_ [-> _]]; [sextet |].
    destruct (encode_char_props (byte_val a mod 4 * 16 + byte_val b / 16)) as [_ [-> _]]; [sextet |].
    destruct (encode_char_props (byte_val b mod 16 * 4)) as [_ [-> _]]; [sextet |].
    reflexivity.
  - destruct (encode_char_props (byte_val a / 4)) as [_ [-> _]]; [sextet |].
    destruct (encode_char_props (byte_val a mod 4 * 16 + byte_val b / 16)) as [_ [-> _]]; [sextet |].
    destruct (encode_char_props (byte_val b mod 16 * 4 + byte_val c / 64)) as [_ [-> _]]; [sextet |].
    destruct (encode_char_props (byte_val c mod 64)) as [_ [-> _]]; [sextet |].
    rewrite IH. reflexivity.
Qed.

Lemma decode_quanta_EncodeToString : forall src : string,
  decode_quanta (EncodeToString src) = Some src.
Proof.
  induction src as [| a | a b | a b c rest IH] using string_ind3;
    try pose proof (byte_val_range a); try pose proof (byte_val_range b); try pose proof (byte_val_range c);
    cbn [EncodeToString decode_quanta].
  - reflexivity.
  - destruct (encode_char_props (byte_val a / 4)) as [-> _]; [sextet |].
    destruct (encode_char_props (byte_val a mod 4 * 16)) as [-> _]; [sextet |].
    rewrite Ascii.eqb_refl. cbn [andb is_empty].
    replace (byte_val a / 4 * 4 + byte_val a mod 4 * 16 / 16) with (byte_val a) by sextet.
    rewrite val_byte_val. reflexivity.
  - destruct (encode_char_props (byte_val a / 4)) as [-> _]; [sextet |].
    destruct (encode_char_props (byte_val a mod 4 * 16 + byte_val b / 16)) as [-> _]; [sextet |].
    destruct (encode_char_props (byte_val b mod 16 * 4)) as [-> [_ [-> _]]]; [sextet |].
    rewrite Ascii.eqb_refl. cbn [is_empty].
    replace (byte_val a / 4 * 4 + (byte_val a mod 4 * 16 + byte_val b / 16) / 16) with (byte_val a) by sextet.
    replace ((byte_val a mod 4 * 16 + byte_val b / 16) mod 16 * 16 + byte_val b mod 16 * 4 / 4)
      with (byte_val b) by sextet.
    rewrite !val_byte_val. reflexivity.
  - destruct (encode_char_props (byte_val a / 4)) as [-> _]; [sextet |].
    destruct (encode_char_props (byte_val a mod 4 * 16 + byte_val b / 16)) as [-> _]; [sextet |].
    destruct (encode_char_props (byte_val b mod 16 * 4 + byte_val c / 64)) as [-> [_ [-> _]]]; [sextet |].
    destruct (encode_char_props (byte_val c mod 64)) as [-> [_ [-> _]]]; [sextet |].
    rewrite IH.
    replace (byte_val a / 4 * 4 + (byte_val a mod 4 * 16 + byte_val b / 16) / 16) with (byte_val a) by sextet.
    replace ((byte_val a mod 4 * 16 + byte_val b / 16) mod 16 * 16 + (byte_val b mod 16 * 4 + byte_val c / 64) / 4)
      with (byte_val b) by sextet.
    replace ((byte_val b mod 16 * 4 + byte_val c / 64) mod 4 * 64 + byte_val c mod 64)
      with (byte_val c) by sextet.
    rewrite !val_byte_val. reflexivity.
Qed.

(** decoding undoes encoding *)
Lemma DecodeString_EncodeToString (src : string) :
  DecodeString (EncodeToString src) = Some src.
Proof.
  unfold DecodeString.
  rewrite strip_newlines_EncodeToString. apply decode_quanta_EncodeToString.
Qed.

(** encoded text holds no colon *)
Lemma contains_EncodeToString : forall src : string,
  strings.contains (EncodeToString src) ":"%char = false.
Proof.
  induction src as [| a | a b | a b c rest IH] using string_ind3;
    try pose proof (byte_val_range a); try pose proof (byte_val_range b); try pose proof (byte_val_range c);
    cbn [EncodeToString strings.contains].
  - reflexivity.
  - destruct (encode_char_props (byte_val a / 4)) as [_ [_ [_ ->]]]; [sextet |].
    destruct (encode_char_props (byte_val a mod 4 * 16)) as [_ [_ [_ ->]]]; [sextet |].
    reflexivity.
  - destruct (encode_char_props (byte_val a / 4)) as [_ [_ [_ ->]]]; [sextet |].
    destruct (encode_char_props (byte_val a mod 4 * 16 + byte_val b / 16)) as [_ [_ [_ ->]]]; [sextet |].
    destruct (encode_char_props (byte_val b mod 16 * 4)) as [_ [_ [_ ->]]]; [sextet |].
    reflexivity.
  - destruct (encode_char_props (byte_val a / 4)) as [_ [_ [_ ->]]]; [sextet |].
    destruct (encode_char_props (byte_val a mod 4 * 16 + byte_val b / 16)) as [_ [_ [_ ->]]]; [sextet |].
    destruct (encode_char_props (byte_val b mod 16 * 4 + byte_val c / 64)) as [_ [_ [_ ->]]]; [sextet |].
    destruct (encode_char_props (byte_val c mod 64)) as [_ [_ [_ ->]]]; [sextet |].
    rewrite IH. reflexivity.
Qed.
End base64_facts.

Import strings_facts strconv_facts base64_facts.

(** * Facts about the codec *)

Lemma String_Join (h : Header) : String_ h = strings.Join (String_fields h) ":"%char.
Proof. reflexivity. Qed.

Lemma same_challengeb_spec (h1 h2 : Header) :
  same_challengeb h1 h2 = true <-> same_challenge h1 h2.
Proof.
  unfold same_challengeb, same_challenge.
  rewrite !andb_true_iff, !Z.eqb_eq, !String.eqb_eq. tauto.
Qed.

Lemma wrap_int64_range (x : Z) : Int.is_int64 (Int.wrap_int64 x).
Proof.
  unfold Int.is_int64, Int.wrap_int64, Int.minInt64, Int.maxInt64, Int.uint64_mod.
  pose proof (Z.mod_pos_bound (x + 2 ^ 63) (2 ^ 64) ltac:(lia)). lia.
Qed.

Lemma parse_digits_nonneg (s : string) : forall acc v : Z,
  0 <= acc -> strconv.parse_digits s acc = Some v -> 0 <= v.
Proof.
  induction s as [|c s IH]; cbn [strconv.parse_digits]; intros acc v Hacc H.
  - inversion H; subst; assumption.
  - unfold strconv.digit_val in H.
    destruct ((48 <=? byte_val c) && (byte_val c <=? 57)) eqn:E;
      [| discriminate].
    apply andb_true_iff in E. destruct E as [E1 E2].
    apply Z.leb_le in E1. apply IH in H; [assumption | lia].
Qed.

Lemma ParseInt_range (s : string) (v : Z) :
  strconv.ParseInt s 64 = Some v -> Int.is_int64 v.
Proof.
  unfold strconv.ParseInt, Int.is_int64, Int.minInt64, Int.maxInt64.
  change (2 ^ (64 - 1)) with (2 ^ 63).
  destruct s as [|c s]; [discriminate |].
  destruct (Ascii.eqb c "+"); [| destruct (Ascii.eqb c "-")]; cbv beta iota;
    try (destruct s as [|c' s']; [discriminate |]);
    match goal with
    | |- match strconv.parse_digits ?digits 0 with _ => _ end = _ -> _ =>
        destruct (strconv.parse_digits digits 0) as [un |] eqn:Hp; [| discriminate];
        apply parse_digits_nonneg in Hp; [| lia]
    end;
    cbn [negb andb];
    repeat match goal with
           | |- context [Z.leb ?a ?b] => destruct (Z.leb_spec a b)
           | |- context [Z.ltb ?a ?b] => destruct (Z.ltb_spec a b)
           end;
    intros Hv; inversion Hv; subst; lia.
Qed.

Section Codec.
Variable timefmt_Parse : string -> bool.

Lemma Split_String (h : Header) :
  no_colon (date h) -> no_colon (resource h) -> no_colon (random h) ->
  strings.Split (String_ h) ":"%char = String_fields h.
Proof.
  intros Hd Hr Hn. rewrite String_Join.
  apply Split_Join; [discriminate |].
  unfold String_fields.
  repeat constructor; try assumption.
  - apply contains_FormatUint.
  - apply contains_EncodeToString.
Qed.

(** parsing undoes printing *)
Lemma ParseHeaderString_String (h : Header) :
  printable timefmt_Parse h -> ParseHeaderString timefmt_Parse (String_ h) = Ok h.
Proof.
  intros [Hv [Hb [Hc [Hdate [Hd [Hr Hn]]]]]].
  unfold ParseHeaderString.
  rewrite Split_String by assumption. unfold String_fields.
  change (strconv.Atoi (strconv.FormatInt Version)) with (Some 1).
  cbn [or_fail res_bind]. change (negb (1 =? Version)) with false. cbv iota.
  rewrite Atoi_FormatUint by assumption. cbn [or_fail res_bind].
  rewrite Hdate. cbn [negb].
  rewrite DecodeString_EncodeToString. cbn [or_fail res_bind].
  rewrite ParseInt_FormatInt by assumption. cbn [or_fail res_bind].
  unfold Int.to_uint64, Int.uint64_mod.
  rewrite Z.mod_small by lia.
  destruct h as [v b d r n c]. cbn in *. subst v. reflexivity.
Qed.

(** what every parsed header satisfies *)
Lemma ParseHeaderString_Ok (s : string) (h : Header) :
  ParseHeaderString timefmt_Parse s = Ok h ->
  version h = Version /\ Int.is_uint64 (bits h) /\ Int.is_int64 (counter h) /\
  timefmt_Parse (date h) = true /\
  no_colon (date h) /\ no_colon (resource h) /\ no_colon (random h).
Proof.
  unfold ParseHeaderString.
  pose proof (Split_pieces s ":"%char) as Hp.
  destruct (strings.Split s ":") as [|f0 [|f1 [|f2 [|f3 [|f4 [|f5 [|f6 [|f7 l]]]]]]]];
    try discriminate.
  destruct (strconv.Atoi f0) as [v |]; [| discriminate]. cbn [or_fail res_bind].
  destruct (Z.eqb_spec v Version) as [-> | _]; [| discriminate]. cbn [negb].
  destruct (strconv.Atoi f1) as [b |]; [| discriminate]. cbn [or_fail res_bind].
  destruct (timefmt_Parse f2) eqn:Hdate; [| discriminate]. cbn [negb].
  destruct (base64.DecodeString f6) as [t |]; [| discriminate]. cbn [or_fail res_bind].
  destruct (strconv.ParseInt t 64) as [c |] eqn:Hc; [| discriminate].
  cbn [or_fail res_bind]. intros H. inversion H; subst h; clear H. cbn.
  repeat match goal with H : Forall _ (_ :: _) |- _ => inversion H; subst; clear H end.
  repeat split; try assumption.
  - apply Z.mod_pos_bound. reflexivity.
  - apply Z.mod_pos_bound. reflexivity.
  - apply (ParseInt_range t c Hc).
  - apply (ParseInt_range t c Hc).
Qed.

(** a bits field that [Atoi] reads as a negative number is converted, not
    refused: the header gets the value wrapped into [uint] *)
Lemma ParseHeaderString_converts_negative_bits
    (s f0 f1 f2 f3 e f5 f6 t : string) (b c : Z) :
  strings.Split s ":"%char = [f0; f1; f2; f3; e; f5; f6] ->
  strconv.Atoi f0 = Some Version ->
  strconv.Atoi f1 = Some b -> b < 0 ->
  timefmt_Parse f2 = true ->
  base64.DecodeString f6 = Some t ->
  strconv.ParseInt t 64 = Some c ->
  ParseHeaderString timefmt_Parse s = Ok (mkHeader 1 (b + 2 ^ 64) f2 f3 f5 c).
Proof.
  intros Hs H0 H1 Hb H2 H6 Hc. unfold ParseHeaderString.
  rewrite Hs, H0. cbn [or_fail res_bind]. change (negb (Version =? Version)) with false.
  cbv iota. rewrite H1. cbn [or_fail res_bind]. rewrite H2. cbn [negb].
  rewrite H6. cbn [or_fail res_bind]. rewrite Hc. cbn [or_fail res_bind].
  apply ParseInt_range in H1. unfold Int.is_int64, Int.minInt64, Int.maxInt64 in H1.
  unfold Int.to_uint64, Int.uint64_mod.
  replace (b mod 2 ^ 64) with (b + 2 ^ 64)
    by (apply Z.mod_unique with (q := -1); lia).
  reflexivity.
Qed.

(** a header string never parses to a panic or to a loop *)
Lemma ParseHeaderString_total (s : string) :
  (exists h, ParseHeaderString timefmt_Parse s = Ok h) \/
  (exists e, ParseHeaderString timefmt_Parse s = Err e).
Proof.
  unfold ParseHeaderString.
  destruct (strings.Split s ":") as [|f0 [|f1 [|f2 [|f3 [|f4 [|f5 [|f6 [|f7 l]]]]]]]];
    try (right; eexists; reflexivity).
  destruct (strconv.Atoi f0) as [v |]; cbn [or_fail res_bind];
    [| right; eexists; reflexivity].
  destruct (negb (v =? Version)); [right; eexists; reflexivity |].
  destruct (strconv.Atoi f1) as [b |]; cbn [or_fail res_bind];
    [| right; eexists; reflexivity].
  destruct (negb (timefmt_Parse f2)); [right; eexists; reflexivity |].
  destruct (base64.DecodeString f6) as [t |]; cbn [or_fail res_bind];
    [| right; eexists; reflexivity].
  destruct (strconv.ParseInt t 64) as [c |]; cbn [or_fail res_bind];
    [left | right]; eexists; reflexivity.
Qed.
End Codec.

(** * Facts about the engine *)

(** the bit test returns or panics; it has no error value *)
Lemma checkBits_no_error (d : list byte) (bits : Z) :
  (exists b, checkBits d bits = Ok b) \/ (exists p, checkBits d bits = Panic p).
Proof.
  unfold checkBits.
  destruct (Z.of_nat (List.length d) <? bits / 8); [right; eexists; reflexivity |].
  destruct (negb (checkBits_range (firstn (Z.to_nat (bits / 8)) d)));
    [left; eexists; reflexivity |].
  destruct (bits mod 8 >? 0); [| left; eexists; reflexivity].
  destruct (nth_error d (Z.to_nat (bits / 8))); [| right; eexists; reflexivity].
  destruct (negb (checkBits_switch (bits mod 8) (byte_val a))); left; eexists; reflexivity.
Qed.

(** a test that accepts has stayed inside the digest *)
Lemma checkBits_true_bound (d : list byte) (bits : Z) :
  0 <= bits -> checkBits d bits = Ok true -> bits <= 8 * Z.of_nat (List.length d).
Proof.
  intros H0. unfold checkBits.
  destruct (Z.ltb_spec (Z.of_nat (List.length d)) (bits / 8)) as [? | Hq]; [discriminate |].
  destruct (negb (checkBits_range (firstn (Z.to_nat (bits / 8)) d))); [discriminate |].
  destruct (Z.gtb_spec (bits mod 8) 0) as [Hm | Hm].
  - destruct (nth_error d (Z.to_nat (bits / 8))) eqn:Hn; [| discriminate].
    intros _.
    assert (Hlt : (Z.to_nat (bits / 8) < List.length d)%nat)
      by (apply nth_error_Some; rewrite Hn; discriminate).
    Z.div_mod_to_equations. lia.
  - intros _. Z.div_mod_to_equations. lia.
Qed.

Section Engine.
Variable timefmt_Parse : string -> bool.
Variable Sum256 : string -> list byte.
(** the digest has [sha256.Size] bytes *)
Hypothesis Sum256_Size : forall msg, List.length (Sum256 msg) = sha256.Size.

(** [getHash] resets before it writes: its digest is the digest of
    [header], whatever the hasher held *)
Lemma getHash_sequential (header : string) (hasher : Hash) :
  getHash Sum256 header hasher = (Ok (Sum256 header), header).
Proof. reflexivity. Qed.

Lemma incr_counter_same (h : Header) : same_challenge (incr_counter h) h.
Proof. repeat split. Qed.

(** what the mining loop hands back *)
Lemma Calculate_loop_Ok (fuel : nat) : forall (header : Header) (bits : Z)
    (hasher hasher' : Hash) (r : string),
  Calculate_loop Sum256 fuel header bits hasher = (Ok r, hasher') ->
  exists h : Header,
    r = String_ h /\ same_challenge h header /\
    (Int.is_int64 (counter header) -> Int.is_int64 (counter h)) /\
    checkBits (Sum256 (String_ h)) bits = Ok true.
Proof.
  induction fuel as [|fuel IH]; intros header bits hasher hasher' r.
  - cbn. discriminate.
  - cbn [Calculate_loop]. unfold bind at 1. rewrite getHash_sequential.
    unfold bind at 1, lift at 1.
    destruct (checkBits (Sum256 (String_ header)) bits) as [[|] | | |] eqn:Hc;
      try discriminate; cbn [negb].
    + unfold ret. intros H. inversion H; subst. exists header.
      split; [reflexivity |]. split; [repeat split |]. split; [auto | exact Hc].
    + intros H. apply IH in H. destruct H as [h [Hr [Hs [Hi Hb]]]].
      exists h. split; [assumption |]. split; [| split; [| assumption]].
      * destruct Hs as [? [? [? [? ?]]]]. repeat split; assumption.
      * intros _. apply Hi. apply wrap_int64_range.
Qed.

(** with fuel for it, the loop returns at the first counter whose digest
    passes the test *)
Lemma Calculate_loop_returns (k : nat) : forall (header : Header) (bits : Z)
    (fuel : nat) (hasher : Hash),
  (forall j, (j < k)%nat ->
     checkBits (Sum256 (String_ (after_increments j header))) bits = Ok false) ->
  checkBits (Sum256 (String_ (after_increments k header))) bits = Ok true ->
  (k < fuel)%nat ->
  Calculate_loop Sum256 fuel header bits hasher
  = (Ok (String_ (after_increments k header)), String_ (after_increments k header)).
Proof.
  induction k as [|k IH]; intros header bits fuel hasher Hfail Hpass Hfuel;
    (destruct fuel as [|fuel]; [lia |]);
    cbn [Calculate_loop]; unfold bind at 1; rewrite getHash_sequential;
    unfold bind at 1, lift at 1.
  - cbn [after_increments] in Hpass. rewrite Hpass. reflexivity.
  - pose proof (Hfail O ltac:(lia)) as H0. cbn [after_increments] in H0.
    rewrite H0. cbn [negb].
    apply IH; [| exact Hpass | lia].
    intros j Hj. apply (Hfail (S j)). lia.
Qed.

(** a challenge that parses and whose search ends gets its result *)
Lemma Calculate_returns (c : string) (h : Header) (k fuel : nat) (hasher : Hash) :
  ParseHeaderString timefmt_Parse c = Ok h ->
  (forall j, (j < k)%nat ->
     checkBits (Sum256 (String_ (after_increments j h))) (bits h) = Ok false) ->
  checkBits (Sum256 (String_ (after_increments k h))) (bits h) = Ok true ->
  (k < fuel)%nat ->
  fst (Calculate timefmt_Parse Sum256 fuel c hasher)
  = Ok (String_ (after_increments k h)).
Proof.
  intros Hp Hfail Hpass Hfuel. unfold Calculate, bind at 1, lift. rewrite Hp.
  cbn [wrap_error].
  rewrite (Calculate_loop_returns k h (bits h) fuel hasher Hfail Hpass Hfuel).
  reflexivity.
Qed.
(** what [Calculate] hands back: the print of a header of the same
    challenge, which parses back and whose digest passes the test *)
Lemma Calculate_Ok (fuel : nat) (c r : string) (hasher hasher' : Hash) :
  Calculate timefmt_Parse Sum256 fuel c hasher = (Ok r, hasher') ->
  exists h0 h : Header,
    ParseHeaderString timefmt_Parse c = Ok h0 /\
    r = String_ h /\ same_challenge h h0 /\
    ParseHeaderString timefmt_Parse r = Ok h /\
    checkBits (Sum256 (String_ h)) (bits h) = Ok true.
Proof.
  unfold Calculate, bind at 1, lift.
  destruct (ParseHeaderString timefmt_Parse c) as [h0 | | |] eqn:Hp;
    cbn [wrap_error]; try discriminate.
  intros H. apply Calculate_loop_Ok in H. destruct H as [h [Hr [Hs [Hi Hb]]]].
  exists h0, h. split; [reflexivity |]. split; [assumption |]. split; [assumption |].
  destruct (ParseHeaderString_Ok _ _ _ Hp) as [Hv [Hu [Hc [Hd [Hn1 [Hn2 Hn3]]]]]].
  destruct Hs as [Ev [Eb [Ed [Er En]]]].
  rewrite Eb. split; [| assumption].
  subst r. apply ParseHeaderString_String.
  unfold printable. rewrite Ev, Eb, Ed, Er, En.
  apply checkBits_true_bound in Hb; [| apply Hu].
  rewrite Sum256_Size in Hb. unfold sha256.Size in Hb.
  unfold Int.is_uint64 in Hu.
  repeat split; try assumption; try lia.
  - apply Hi; apply Hc.
  - apply Hi; apply Hc.
Qed.

(** [Verify] on two headers that parse *)
Lemma Verify_parsed (calculated challenge : string) (hc hch : Header) (hasher : Hash) :
  ParseHeaderString timefmt_Parse calculated = Ok hc ->
  ParseHeaderString timefmt_Parse challenge = Ok hch ->
  fst (Verify timefmt_Parse Sum256 calculated challenge hasher) =
    if same_challengeb hc hch
    then res_bind (checkBits (Sum256 (String_ hc)) (bits hc)) (fun ok => Ok ok)
    else Err ChallengeMismatch.
Proof.
  intros H1 H2. unfold Verify, bind at 1, lift at 1. rewrite H1. cbn [wrap_error].
  unfold bind at 1, lift at 1. rewrite H2. cbn [wrap_error].
  unfold same_challengeb.
  destruct (version hc =? version hch); cbn [negb orb andb]; [| reflexivity].
  destruct (bits hc =? bits hch); cbn [negb orb andb]; [| reflexivity].
  destruct (String.eqb (date hc) (date hch)); cbn [negb orb andb]; [| reflexivity].
  destruct (String.eqb (resource hc) (resource hch)); cbn [negb orb andb]; [| reflexivity].
  destruct (String.eqb (random hc) (random hch)); cbn [negb orb andb]; [| reflexivity].
  unfold bind at 1. rewrite getHash_sequential.
  unfold bind, lift, ret.
  destruct (checkBits (Sum256 (String_ hc)) (bits hc)) as [[|] | | |]; reflexivity.
Qed.
End Engine.

(** * The package at SHA-256 *)

Lemma Sum256_Size (msg : string) : List.length (sha256.Sum256 msg) = sha256.Size.
Proof. reflexivity. Qed.

(** the runs of [TestVerify] and [TestParseHeaderString_correct] *)
Example TestVerify_correct :
  fst (Concrete.Verify result12 challenge12 Concrete.hasher) = Ok true.
Proof. vm_compute. reflexivity. Qed.

Example TestVerify_incorrect :
  fst (Concrete.Verify wrong12 challenge12 Concrete.hasher) = Ok false.
Proof. vm_compute. reflexivity. Qed.

Example TestVerify_mismatch :
  fst (Concrete.Verify other12 challenge12 Concrete.hasher) = Err ChallengeMismatch.
Proof. vm_compute. reflexivity. Qed.

Example TestParseHeaderString_correct :
  Concrete.ParseHeaderString header2
  = Ok (mkHeader 1 2 "2201010000" "resource" "cmFuZG9t" 1000).
Proof. vm_compute. reflexivity. Qed.

(** the last 28 increments of [TestCalculate_correct] *)
Example Calculate_near12 :
  fst (Concrete.Calculate 29 near12 Concrete.hasher) = Ok result12.
Proof. vm_compute. reflexivity. Qed.

Example Calculate_challenge4 :
  fst (Concrete.Calculate 3 challenge4 Concrete.hasher) = Ok result4.
Proof. vm_compute. reflexivity. Qed.

(** * The properties of the specification *)

(** C1. For every bits in [0, 64) and every byte sequence d of at least 8
    bytes, checkBits returns (it does not panic), and it accepts d exactly
    when d has at least bits leading zero bits; equivalently, with
    q = bits / 8 and r = bits % 8, when the first q bytes of d are zero
    and, for r > 0, the byte at index q is less than 2^(8-r).  The bytes
    beyond index q are not inspected: two sequences that agree up to index
    q get the same answer.  bits = 0 always passes. *)
Theorem checkBits_leading_zero_bits (d : list byte) (bits : Z) :
  0 <= bits < 64 ->
  (8 <= List.length d)%nat ->
  checkBits d bits = Ok (bits <=? leading_zero_bits d) /\
  (checkBits d bits = Ok true <-> bits <= leading_zero_bits d) /\
  (checkBits d bits = Ok true <->
     Forall (fun b => byte_val b = 0) (firstn (Z.to_nat (bits / 8)) d) /\
     (bits mod 8 > 0 ->
      exists b, nth_error d (Z.to_nat (bits / 8)) = Some b /\
                byte_val b < 2 ^ (8 - bits mod 8))) /\
  (forall d' : list byte,
     (8 <= List.length d')%nat ->
     firstn (S (Z.to_nat (bits / 8))) d' = firstn (S (Z.to_nat (bits / 8))) d ->
     checkBits d' bits = checkBits d bits) /\
  checkBits d 0 = Ok true.
Proof.
  intros Hb Hl.
  assert (Hc : checkBits d bits = Ok (bits <=? leading_zero_bits d))
    by (apply checkBits_counts; lia).
  split; [exact Hc |].
  split.
  { rewrite Hc. destruct (Z.leb_spec bits (leading_zero_bits d)).
    - split; [intros _; assumption | reflexivity].
    - split; [discriminate | lia]. }
  split; [apply checkBits_quotient_modulo; lia |].
  split.
  { intros d' Hl' Heq.
    assert (Hq : 0 <= bits / 8 < 8) by (Z.div_mod_to_equations; lia).
    rewrite (checkBits_prefix d), (checkBits_prefix d') by lia.
    rewrite Heq. reflexivity. }
  rewrite checkBits_counts by lia.
  pose proof (leading_zero_bits_nonneg d).
  destruct (Z.leb_spec 0 (leading_zero_bits d)); [reflexivity | lia].
Qed.

Lemma checkBits_leading_zero_bits_witness :
  checkBits digest12 12 = Ok true /\ leading_zero_bits digest12 = 12 /\
  checkBits digest12 13 = Ok false.
Proof.
  split; [| split].
  - rewrite (proj1 (checkBits_leading_zero_bits digest12 12 ltac:(lia) ltac:(simpl; lia))).
    reflexivity.
  - reflexivity.
  - rewrite (proj1 (checkBits_leading_zero_bits digest12 13 ltac:(lia) ltac:(simpl; lia))).
    reflexivity.
Defined.

(** C2, amended. For every Header h of version 1 whose bits are below
    2^63, whose date passes the date check and whose date, resource and
    random hold no colon, parsing the serialization of h succeeds and
    yields h, field by field; the serialization has seven fields, the
    extension field being empty. *)
Theorem ParseHeaderString_round_trip (timefmt_Parse : string -> bool) (h : Header) :
  version h = Version ->
  0 <= bits h < 2 ^ 63 ->
  Int.is_int64 (counter h) ->
  timefmt_Parse (date h) = true ->
  no_colon (date h) -> no_colon (resource h) -> no_colon (random h) ->
  ParseHeaderString timefmt_Parse (String_ h) = Ok h /\
  strings.Split (String_ h) ":"%char = String_fields h /\
  nth_error (String_fields h) 4 = Some EmptyString.
Proof.
  intros Hv Hb Hc Hdate Hd Hr Hn.
  split; [| split].
  - apply ParseHeaderString_String. repeat split; try assumption; apply Hb || apply Hc.
  - apply Split_String; assumption.
  - reflexivity.
Qed.

Lemma ParseHeaderString_round_trip_witness :
  Concrete.ParseHeaderString (String_ header_ok) = Ok header_ok.
Proof.
  refine (proj1 (ParseHeaderString_round_trip timefmt.Parse_FormatDate header_ok
                   _ _ _ _ _ _ _));
    try reflexivity; unfold Int.is_int64, Int.minInt64, Int.maxInt64; simpl; lia.
Defined.

(** C2 as the specification has it fails: three headers of version 1
    whose serialization does not parse back, one for a colon in the
    resource, one for bits of 2^63, one for a date that is no timestamp. *)
Lemma ParseHeaderString_round_trip_counterexample :
  (version header_colon = Version /\
   Concrete.ParseHeaderString (String_ header_colon) = Err MalformedHeader) /\
  (version header_bits63 = Version /\
   Concrete.ParseHeaderString (String_ header_bits63) = Err ConvertBits) /\
  (version header_date = Version /\
   Concrete.ParseHeaderString (String_ header_date) = Err ParseDate).
Proof. vm_compute. repeat split. Qed.

Section Properties.
Variable timefmt_Parse : string -> bool.
Variable Sum256 : string -> list byte.
Hypothesis Sum256_has_Size : forall msg, List.length (Sum256 msg) = sha256.Size.

(** C3. For every challenge string c that parses, whenever Calculate(c)
    returns a result string without error, Verify of that result
    against c returns true with no error, whatever the hasher holds
    when Verify starts. *)
Theorem Verify_Calculate (c : string) (fuel : nat) (r : string)
    (hasher hasher' hasher'' : Hash) :
  (exists h, ParseHeaderString timefmt_Parse c = Ok h) ->
  Calculate timefmt_Parse Sum256 fuel c hasher = (Ok r, hasher') ->
  fst (Verify timefmt_Parse Sum256 r c hasher'') = Ok true.
Proof.
  intros _ H.
  apply (Calculate_Ok _ _ Sum256_has_Size) in H.
  destruct H as [h0 [h [Hp0 [_ [Hs [Hp Hb]]]]]].
  rewrite (Verify_parsed _ _ _ _ _ _ _ Hp Hp0).
  rewrite (proj2 (same_challengeb_spec h h0) Hs), Hb. reflexivity.
Qed.

(** C4, amended. For every pair of header strings that both parse,
    Verify returns the ChallengeMismatch error exactly when version,
    bits, date, resource or random differ between the two headers; when
    the five fields are equal it hands on what the bit test does on the
    digest of the result header, and for bits up to 256, the bit length
    of the digest, that is a boolean with no error: true when the
    digest has at least bits leading zero bits, false otherwise. *)
Theorem Verify_outcome (calculated challenge : string) (hc hch : Header)
    (hasher : Hash) :
  ParseHeaderString timefmt_Parse calculated = Ok hc ->
  ParseHeaderString timefmt_Parse challenge = Ok hch ->
  let outcome := fst (Verify timefmt_Parse Sum256 calculated challenge hasher) in
  (outcome = Err ChallengeMismatch <-> ~ same_challenge hc hch) /\
  (same_challenge hc hch ->
   outcome = res_bind (checkBits (Sum256 (String_ hc)) (bits hc)) (fun ok => Ok ok)) /\
  (same_challenge hc hch -> bits hc <= 256 ->
   outcome = Ok (bits hc <=? leading_zero_bits (Sum256 (String_ hc)))).
Proof.
  intros Hc Hch outcome. subst outcome.
  rewrite (Verify_parsed _ Sum256 _ _ _ _ hasher Hc Hch).
  pose proof (same_challengeb_spec hc hch) as Hs.
  destruct (same_challengeb hc hch).
  - assert (Hsame : same_challenge hc hch) by (apply Hs; reflexivity).
    split; [| split].
    + split; [| intros Hn; contradiction].
      destruct (checkBits_no_error (Sum256 (String_ hc)) (bits hc)) as [[b ->] | [p ->]];
        discriminate.
    + reflexivity.
    + intros _ Hb.
      destruct (ParseHeaderString_Ok _ _ _ Hc) as [_ [[Hb0 _] _]].
      rewrite checkBits_counts; [reflexivity |].
      rewrite Sum256_has_Size. unfold sha256.Size. lia.
  - assert (Hdiff : ~ same_challenge hc hch)
      by (intros Hsame; apply Hs in Hsame; discriminate).
    split; [| split].
    + split; [intros _; assumption | reflexivity].
    + intros Hsame; contradiction.
    + intros Hsame; contradiction.
Qed.

(** C7. For every challenge string c that parses and on which Calculate
    returns a result, the result parses to a Header whose version, bits,
    date, resource and random equal those of the parsed challenge. *)
Theorem Calculate_keeps_challenge (c : string) (hc : Header) (fuel : nat)
    (r : string) (hasher hasher' : Hash) :
  ParseHeaderString timefmt_Parse c = Ok hc ->
  Calculate timefmt_Parse Sum256 fuel c hasher = (Ok r, hasher') ->
  exists hr : Header,
    ParseHeaderString timefmt_Parse r = Ok hr /\
    version hr = version hc /\ bits hr = bits hc /\ date hr = date hc /\
    resource hr = resource hc /\ random hr = random hc.
Proof.
  intros Hc H.
  apply (Calculate_Ok _ _ Sum256_has_Size) in H.
  destruct H as [h0 [h [Hp0 [_ [Hs [Hp _]]]]]].
  rewrite Hc in Hp0. inversion Hp0; subst h0.
  exists h. split; [exact Hp | exact Hs].
Qed.

(** C9. Every Header ParseHeaderString returns has version 1; so for two
    headers that parse the versions are equal, and a ChallengeMismatch
    error of Verify comes with a difference in bits, date, resource or
    random. *)
Theorem parsed_version_is_supported (calculated challenge : string)
    (hc hch : Header) (hasher : Hash) :
  ParseHeaderString timefmt_Parse calculated = Ok hc ->
  ParseHeaderString timefmt_Parse challenge = Ok hch ->
  version hc = Version /\ version hch = Version /\
  (version hc =? version hch) = true /\
  (fst (Verify timefmt_Parse Sum256 calculated challenge hasher) = Err ChallengeMismatch ->
   bits hc <> bits hch \/ date hc <> date hch \/
   resource hc <> resource hch \/ random hc <> random hch).
Proof.
  intros Hc Hch.
  destruct (ParseHeaderString_Ok _ _ _ Hc) as [Hv _].
  destruct (ParseHeaderString_Ok _ _ _ Hch) as [Hv' _].
  split; [assumption |]. split; [assumption |].
  split; [rewrite Hv, Hv'; reflexivity |].
  rewrite (Verify_parsed _ Sum256 _ _ _ _ hasher Hc Hch).
  unfold same_challengeb. rewrite Hv, Hv'. cbn [Z.eqb Version Pos.eqb andb].
  destruct (Z.eqb_spec (bits hc) (bits hch)); [| auto].
  destruct (String.eqb_spec (date hc) (date hch)); [| auto].
  destruct (String.eqb_spec (resource hc) (resource hch)); [| auto].
  destruct (String.eqb_spec (random hc) (random hch)); [| auto].
  cbn [andb].
  destruct (checkBits_no_error (Sum256 (String_ hc)) (bits hc)) as [[b ->] | [p ->]];
    discriminate.
Qed.

(** C10. Two header strings of seven colon-separated fields that differ
    only in the fifth, the extension, get the same outcome from
    ParseHeaderString, the same error or the same Header; String prints
    seven fields joined by colons with the fifth empty, and the print of
    a parsed header splits into seven fields with the fifth empty. *)
Theorem extension_is_ignored (s1 s2 f0 f1 f2 f3 e1 e2 f5 f6 : string) :
  strings.Split s1 ":"%char = [f0; f1; f2; f3; e1; f5; f6] ->
  strings.Split s2 ":"%char = [f0; f1; f2; f3; e2; f5; f6] ->
  ParseHeaderString timefmt_Parse s1 = ParseHeaderString timefmt_Parse s2 /\
  (forall h : Header,
     String_ h = strings.Join (String_fields h) ":"%char /\
     nth_error (String_fields h) 4 = Some EmptyString) /\
  (forall h : Header,
     ParseHeaderString timefmt_Parse s1 = Ok h ->
     strings.Split (String_ h) ":"%char = String_fields h).
Proof.
  intros H1 H2. split; [| split].
  - unfold ParseHeaderString. rewrite H1, H2. reflexivity.
  - intros h. split; reflexivity.
  - intros h Hp.
    destruct (ParseHeaderString_Ok _ _ _ Hp) as [_ [_ [_ [_ [Hd [Hr Hn]]]]]].
    apply Split_String; assumption.
Qed.
End Properties.

Lemma Verify_Calculate_witness :
  fst (Verify timefmt.Parse_FormatDate sha256.Sum256 result4 challenge4 Concrete.hasher)
  = Ok true.
Proof.
  apply (Verify_Calculate timefmt.Parse_FormatDate sha256.Sum256 Sum256_Size
           challenge4 3 result4 Concrete.hasher result4 Concrete.hasher).
  - eexists. vm_compute. reflexivity.
  - vm_compute. reflexivity.
Defined.

Lemma Verify_outcome_witness :
  fst (Concrete.Verify wrong12 challenge12 Concrete.hasher)
  = Ok (12 <=? leading_zero_bits (sha256.Sum256 wrong12)).
Proof.
  refine (proj2 (proj2 (Verify_outcome timefmt.Parse_FormatDate sha256.Sum256 Sum256_Size
            wrong12 challenge12
            (mkHeader 1 12 "2208082121" "d778f1e9-d0a8-485e-ab51-053a12e9b397"
                      "cRvZdlXCCIrWoQ==" 4002984385551528727)
            (mkHeader 1 12 "2208082121" "d778f1e9-d0a8-485e-ab51-053a12e9b397"
                      "cRvZdlXCCIrWoQ==" 4002984385551524138)
            Concrete.hasher _ _)) _ _).
  - vm_compute. reflexivity.
  - vm_compute. reflexivity.
  - repeat split.
  - simpl. lia.
Defined.

(** C4 as the specification has it fails: a header string that parses, taken as result
    and as challenge, so that the five fields are equal; Verify returns
    neither a boolean nor an error, it panics in the bit test. *)
Lemma Verify_outcome_counterexample :
  (exists h, Concrete.ParseHeaderString challenge264 = Ok h /\ same_challenge h h) /\
  fst (Concrete.Verify challenge264 challenge264 Concrete.hasher)
  = Panic SliceBoundsOutOfRange /\
  (forall b, fst (Concrete.Verify challenge264 challenge264 Concrete.hasher) <> Ok b).
Proof.
  split; [| split].
  - eexists. split; [vm_compute; reflexivity | repeat split].
  - vm_compute. reflexivity.
  - intros b. vm_compute. discriminate.
Qed.

Lemma Calculate_keeps_challenge_witness :
  exists hr : Header,
    Concrete.ParseHeaderString result4 = Ok hr /\
    version hr = 1 /\ bits hr = 4 /\ date hr = "2201010000" /\
    resource hr = "resource" /\ random hr = "cmFuZG9t".
Proof.
  refine (Calculate_keeps_challenge timefmt.Parse_FormatDate sha256.Sum256 Sum256_Size
            challenge4 (mkHeader 1 4 "2201010000" "resource" "cmFuZG9t" 1090)
            3 result4 Concrete.hasher result4 _ _); vm_compute; reflexivity.
Defined.

Lemma parsed_version_is_supported_witness :
  fst (Concrete.Verify other12 challenge12 Concrete.hasher) = Err ChallengeMismatch /\
  exists hc hch,
    version hc = Version /\ version hch = Version /\
    (bits hc <> bits hch \/ date hc <> date hch \/
     resource hc <> resource hch \/ random hc <> random hch).
Proof.
  assert (Hv : fst (Concrete.Verify other12 challenge12 Concrete.hasher)
               = Err ChallengeMismatch) by (vm_compute; reflexivity).
  split; [exact Hv |].
  eexists. eexists.
  pose proof (parsed_version_is_supported timefmt.Parse_FormatDate sha256.Sum256
                other12 challenge12 _ _ Concrete.hasher
                ltac:(vm_compute; reflexivity) ltac:(vm_compute; reflexivity))
    as [H1 [H2 [_ H3]]].
  split; [exact H1 |]. split; [exact H2 |]. exact (H3 Hv).
Defined.

Lemma extension_is_ignored_witness :
  Concrete.ParseHeaderString header2_ext = Concrete.ParseHeaderString header2.
Proof.
  refine (proj1 (extension_is_ignored timefmt.Parse_FormatDate
            header2_ext header2 "1" "2" "2201010000" "resource" "ext=1" ""
            "cmFuZG9t" "MTAwMA==" _ _)); reflexivity.
Defined.

(** C5. The code accepts a negative bits field.  The header string
    1:-5:2201010000:resource::cmFuZG9t:MTAwMA== has seven fields and the
    bits field -5; ParseHeaderString returns a Header, with bits 2^64 - 5,
    and no error.  The print of that header does not parse back, and
    Verify on it panics. *)
Theorem ParseHeaderString_negative_bits :
  strings.Split negative_bits ":"%char
  = ["1"; "-5"; "2201010000"; "resource"; ""; "cmFuZG9t"; "MTAwMA=="] /\
  strconv.Atoi "-5" = Some (-5) /\
  Concrete.ParseHeaderString negative_bits
  = Ok (mkHeader 1 18446744073709551611 "2201010000" "resource" "cmFuZG9t" 1000) /\
  Concrete.ParseHeaderString
    (String_ (mkHeader 1 18446744073709551611 "2201010000" "resource" "cmFuZG9t" 1000))
  = Err ConvertBits /\
  fst (Concrete.Verify negative_bits negative_bits Concrete.hasher)
  = Panic SliceBoundsOutOfRange.
Proof. vm_compute. repeat split. Qed.

Section SharedHasher.
Variable Sum256 : string -> list byte.

(** run without interruption, the calls of [getHash] give what [getHash]
    gives *)
Lemma interleave_sequential (a b : string) (hasher : Hash) :
  interleave Sum256 one_after_the_other (start_getHash a) (start_getHash b) hasher
  = (mkGoroutine [] (Some (Sum256 a)), mkGoroutine [] (Some (Sum256 b)), b) /\
  getHash Sum256 a hasher = (Ok (Sum256 a), a) /\
  getHash Sum256 b a = (Ok (Sum256 b), b).
Proof. repeat split. Qed.

(** taking turns, both goroutines get the digest of the two headers
    written one after the other *)
Lemma interleave_alternate (a b : string) (hasher : Hash) :
  interleave Sum256 alternate (start_getHash a) (start_getHash b) hasher
  = (mkGoroutine [] (Some (Sum256 (a ++ b))),
     mkGoroutine [] (Some (Sum256 (a ++ b))), a ++ b).
Proof. reflexivity. Qed.
End SharedHasher.

(** C6. The code reuses one hasher.  Two invocations of getHash, one on
    the valid result of the test suite and one on another header, that take
    turns on the package-level hasher: the first gets the digest of the two
    headers concatenated, which is not the digest of its own header and
    fails the bit test its own digest passes, the test Verify accepts the
    result by when it runs alone. *)
Theorem getHash_shares_hasher :
  let '(g1, g2, _) :=
    interleave sha256.Sum256 alternate
               (start_getHash result12) (start_getHash other12) Concrete.hasher in
  digest g1 = Some (sha256.Sum256 (result12 ++ other12)) /\
  digest g1 <> Some (sha256.Sum256 result12) /\
  fst (getHash sha256.Sum256 result12 Concrete.hasher) = Ok (sha256.Sum256 result12) /\
  fst (Concrete.Verify result12 challenge12 Concrete.hasher) = Ok true /\
  checkBits (sha256.Sum256 result12) 12 = Ok true /\
  checkBits (sha256.Sum256 (result12 ++ other12)) 12 = Ok false.
Proof.
  vm_compute. split; [reflexivity |]. split; [discriminate |]. repeat split.
Qed.

(** C8. With a complexity greater than 10, the bits picked in the
    challenge step lie in [10, complexity), whatever the random source
    delivers; the conversion to uint keeps the value. *)
Theorem ServeTCP_bits_in_range (complexity draw : Z) :
  Int.is_int64 complexity ->
  10 < complexity ->
  exists bits : Z,
    handler.ServeTCP_bits complexity draw = Ok bits /\
    10 <= bits < complexity /\
    Int.to_uint64 bits = bits.
Proof.
  unfold Int.is_int64, Int.minInt64, Int.maxInt64. intros Hi Hc.
  unfold handler.ServeTCP_bits, rand.Intn.
  assert (Hw : Int.wrap_int64 (complexity - 10) = complexity - 10).
  { unfold Int.wrap_int64, Int.uint64_mod. rewrite Z.mod_small; lia. }
  rewrite Hw.
  destruct (Z.leb_spec (complexity - 10) 0) as [? | _]; [lia |].
  cbn [res_bind].
  pose proof (Z.mod_pos_bound draw (complexity - 10) ltac:(lia)) as Hd.
  assert (Hw' : Int.wrap_int64 (draw mod (complexity - 10) + 10)
                = draw mod (complexity - 10) + 10).
  { unfold Int.wrap_int64, Int.uint64_mod. rewrite Z.mod_small; lia. }
  rewrite Hw'. eexists. split; [reflexivity |]. split; [lia |].
  unfold Int.to_uint64, Int.uint64_mod. apply Z.mod_small. lia.
Qed.

Lemma ServeTCP_bits_in_range_witness :
  exists bits : Z,
    handler.ServeTCP_bits 30 123456789 = Ok bits /\ 10 <= bits < 30 /\
    Int.to_uint64 bits = bits.
Proof.
  apply (ServeTCP_bits_in_range 30 123456789).
  - unfold Int.is_int64, Int.minInt64, Int.maxInt64. lia.
  - lia.
Defined.

(** * Further properties of the codec *)

Lemma Split_length (s : string) (sep : byte) :
  List.length (strings.Split s sep) = S (count_byte s sep).
Proof.
  induction s as [|c s IH]; cbn [strings.Split count_byte]; [reflexivity |].
  destruct (Ascii.eqb c sep); cbn [List.length Nat.add].
  - rewrite IH. reflexivity.
  - pose proof (Split_nonempty s sep) as Hn.
    destruct (strings.Split s sep) as [|p ps]; [contradiction |].
    cbn [List.length] in *. exact IH.
Qed.

Lemma count_byte_app (p q : string) (c : byte) :
  count_byte (p ++ q) c = (count_byte p c + count_byte q c)%nat.
Proof.
  induction p as [|a p IH]; cbn [append count_byte]; [reflexivity |].
  rewrite IH. lia.
Qed.

Lemma count_byte_contains (s : string) (c : byte) :
  count_byte s c = O <-> strings.contains s c = false.
Proof.
  induction s as [|a s IH]; cbn [count_byte strings.contains]; [tauto |].
  destruct (Ascii.eqb a c); cbn [orb Nat.add].
  - split; [lia | discriminate].
  - exact IH.
Qed.

Lemma checkBits_zero_target (d : list byte) : checkBits d 0 = Ok true.
Proof.
  rewrite checkBits_counts by lia.
  pose proof (leading_zero_bits_nonneg d).
  destruct (Z.leb_spec 0 (leading_zero_bits d)); [reflexivity | lia].
Qed.

(** a digest shorter than bits / 8 bytes: the slice expression panics *)
Lemma checkBits_slice_panic (d : list byte) (bits : Z) :
  Z.of_nat (List.length d) < bits / 8 ->
  checkBits d bits = Panic SliceBoundsOutOfRange.
Proof.
  intros H. unfold checkBits.
  destruct (Z.ltb_spec (Z.of_nat (List.length d)) (bits / 8)); [reflexivity | lia].
Qed.

(** X1. A digest that passes the bit test for a target passes it for
    every lower target. *)
Theorem checkBits_lower_target (d : list byte) (bits bits' : Z) :
  0 <= bits' <= bits ->
  checkBits d bits = Ok true ->
  checkBits d bits' = Ok true.
Proof.
  intros Hb H.
  pose proof (checkBits_true_bound d bits ltac:(lia) H) as Hlen.
  rewrite checkBits_counts in H by lia.
  rewrite checkBits_counts by lia.
  assert (Hle : bits <= leading_zero_bits d)
    by (apply Z.leb_le; congruence).
  f_equal. apply Z.leb_le. lia.
Qed.

Lemma checkBits_lower_target_witness :
  checkBits digest12 5 = Ok true.
Proof.
  apply (checkBits_lower_target digest12 12 5).
  - lia.
  - reflexivity.
Defined.

(** X2. When the bit test panics: on the slice expression exactly when
    bits / 8 exceeds the length of the digest, on the index expression
    exactly when bits / 8 equals the length, bits % 8 is positive and
    every byte of the digest is zero. *)
Theorem checkBits_panics (d : list byte) (bits : Z) :
  0 <= bits ->
  (checkBits d bits = Panic SliceBoundsOutOfRange <->
     Z.of_nat (List.length d) < bits / 8) /\
  (checkBits d bits = Panic IndexOutOfRange <->
     bits / 8 = Z.of_nat (List.length d) /\ 0 < bits mod 8 /\
     Forall (fun b => byte_val b = 0) d).
Proof.
  intros H0.
  assert (Hq : 0 <= bits / 8) by (Z.div_mod_to_equations; lia).
  unfold checkBits.
  destruct (Z.ltb_spec (Z.of_nat (List.length d)) (bits / 8)) as [Hlt | Hge].
  { split; [tauto |]. split; [discriminate | lia]. }
  destruct (checkBits_range (firstn (Z.to_nat (bits / 8)) d)) eqn:Hr; cbn [negb].
  2: { split; [split; [discriminate | lia] |].
       split; [discriminate |]. intros [Hlen [_ Hall]].
       rewrite Hlen, Nat2Z.id, firstn_all in Hr.
       apply checkBits_range_Forall in Hall. congruence. }
  destruct (Z.gtb_spec (bits mod 8) 0) as [Hm | Hm].
  2: { split; split; try discriminate; lia. }
  destruct (nth_error d (Z.to_nat (bits / 8))) as [b |] eqn:Hn.
  - assert (Hlt : (Z.to_nat (bits / 8) < List.length d)%nat)
      by (apply nth_error_Some; rewrite Hn; discriminate).
    destruct (negb (checkBits_switch (bits mod 8) (byte_val b)));
      (split; split; try discriminate; lia).
  - apply nth_error_None in Hn.
    assert (Hlen : bits / 8 = Z.of_nat (List.length d)) by lia.
    split; [split; [discriminate | lia] |].
    split; [intros _ | reflexivity].
    split; [exact Hlen |]. split; [lia |].
    rewrite Hlen, Nat2Z.id, firstn_all in Hr.
    apply checkBits_range_Forall. exact Hr.
Qed.

Lemma checkBits_panics_witness :
  checkBits [zero; zero] 17 = Panic IndexOutOfRange /\
  checkBits digest12 72 = Panic SliceBoundsOutOfRange.
Proof.
  split.
  - apply (proj2 (checkBits_panics [zero; zero] 17 ltac:(lia))).
    repeat split; try reflexivity. repeat constructor.
  - apply (proj1 (checkBits_panics digest12 72 ltac:(lia))). reflexivity.
Defined.

Lemma count_byte_FormatUint (u : Z) : count_byte (strconv.FormatUint u) ":"%char = O.
Proof. apply count_byte_contains, contains_FormatUint. Qed.

Lemma count_byte_EncodeToString (src : string) :
  count_byte (base64.EncodeToString src) ":"%char = O.
Proof. apply count_byte_contains, contains_EncodeToString. Qed.

(** a number from 2^63 on prints as a text [Atoi] refuses *)
Lemma Atoi_FormatUint_range (u : Z) :
  2 ^ 63 <= u < 2 ^ 64 -> strconv.Atoi (strconv.FormatUint u) = None.
Proof.
  intros Hu. pose proof (FormatUint_starts u) as Hs.
  pose proof (parse_FormatUint u ltac:(lia)) as Hp.
  unfold strconv.Atoi, strconv.ParseInt.
  destruct (strconv.FormatUint u) as [|c s]; [contradiction |].
  destruct Hs as [d [Hd ->]].
  destruct (digit_char_val d Hd) as [_ [_ [Hplus Hminus]]].
  rewrite Hplus, Hminus, Hp. cbn [negb andb].
  change (2 ^ (64 - 1)) with (2 ^ 63).
  destruct (Z.leb_spec (2 ^ 63) u); [reflexivity | lia].
Qed.

Section CodecMore.
Variable timefmt_Parse : string -> bool.

(** the malformed-header error and the number of colons *)
Lemma ParseHeaderString_MalformedHeader (s : string) :
  ParseHeaderString timefmt_Parse s = Err MalformedHeader <->
  count_byte s ":"%char <> 6%nat.
Proof.
  pose proof (Split_length s ":"%char) as Hl.
  unfold ParseHeaderString.
  destruct (strings.Split s ":") as [|f0 [|f1 [|f2 [|f3 [|f4 [|f5 [|f6 [|f7 l]]]]]]]];
    cbn [List.length] in Hl;
    try (split; [intros _; lia | reflexivity]).
  split; [| lia]. intros H. exfalso. revert H.
  destruct (strconv.Atoi f0) as [v |]; cbn [or_fail res_bind]; [| discriminate].
  destruct (negb (v =? Version)); [discriminate |].
  destruct (strconv.Atoi f1) as [b |]; cbn [or_fail res_bind]; [| discriminate].
  destruct (negb (timefmt_Parse f2)); [discriminate |].
  destruct (base64.DecodeString f6) as [t |]; cbn [or_fail res_bind]; [| discriminate].
  destruct (strconv.ParseInt t 64) as [c |]; cbn [or_fail res_bind]; discriminate.
Qed.

(** X3. ParseHeaderString fails with the malformed-header error exactly
    when the header string does not hold six colons: seven fields, no
    more and no fewer, whatever the fields hold. *)
Theorem ParseHeaderString_malformed (s : string) :
  ParseHeaderString timefmt_Parse s = Err MalformedHeader <->
  count_byte s ":"%char <> 6%nat.
Proof. apply ParseHeaderString_MalformedHeader. Qed.

(** X4. The serialization of a header holds six colons and those of its
    date, resource and random; so it parses back to the malformed-header
    error exactly when one of the three holds a colon. *)
Theorem String_colons (h : Header) :
  count_byte (String_ h) ":"%char
  = (6 + count_byte (date h) ":"%char + count_byte (resource h) ":"%char
     + count_byte (random h) ":"%char)%nat /\
  (ParseHeaderString timefmt_Parse (String_ h) = Err MalformedHeader <->
   ~ (no_colon (date h) /\ no_colon (resource h) /\ no_colon (random h))).
Proof.
  assert (Hc : count_byte (String_ h) ":"%char
               = (6 + count_byte (date h) ":"%char + count_byte (resource h) ":"%char
                  + count_byte (random h) ":"%char)%nat).
  { rewrite String_Join. unfold String_fields. cbn [strings.Join].
    repeat (rewrite count_byte_app; cbn [count_byte]).
    rewrite count_byte_FormatUint, count_byte_EncodeToString.
    change (count_byte (strconv.FormatInt Version) ":") with O.
    change (Ascii.eqb ":" ":") with true. cbv iota.
    cbn [append count_byte]. lia. }
  split; [exact Hc |].
  rewrite ParseHeaderString_MalformedHeader, Hc.
  unfold no_colon. rewrite <- !count_byte_contains. lia.
Qed.

(** X5. The serialization of a parsed header parses back to the same
    header when its bits are below 2^63, and is refused with the bits
    error otherwise (the header came from a negative bits field). *)
Theorem ParseHeaderString_normalises (s : string) (h : Header) :
  ParseHeaderString timefmt_Parse s = Ok h ->
  ParseHeaderString timefmt_Parse (String_ h)
  = if bits h <? 2 ^ 63 then Ok h else Err ConvertBits.
Proof.
  intros Hp.
  destruct (ParseHeaderString_Ok _ _ _ Hp) as [Hv [Hu [Hc [Hd [Hn1 [Hn2 Hn3]]]]]].
  unfold Int.is_uint64, Int.uint64_mod in Hu.
  destruct (Z.ltb_spec (bits h) (2 ^ 63)) as [Hlt | Hge].
  - apply ParseHeaderString_String. repeat split; try assumption; lia || apply Hc.
  - unfold ParseHeaderString. rewrite Split_String by assumption.
    unfold String_fields.
    change (strconv.Atoi (strconv.FormatInt Version)) with (Some 1).
    cbn [or_fail res_bind]. change (negb (1 =? Version)) with false. cbv iota.
    rewrite Atoi_FormatUint_range by lia. reflexivity.
Qed.

(** X6. The challenge string that Challenge mints for bits below 2^63
    and a resource without a colon, at a clock reading the date check
    accepts, parses back to the header NewHeader made; its random field
    decodes to the nonce. *)
Theorem ParseHeaderString_Challenge (bits : Z) (resource now nonce : string) (int63 : Z) :
  0 <= bits < 2 ^ 63 ->
  0 <= int63 < 2 ^ 63 ->
  no_colon resource ->
  timefmt_Parse now = true -> no_colon now ->
  ParseHeaderString timefmt_Parse (Challenge bits resource now nonce int63)
  = Ok (NewHeader bits resource now nonce int63) /\
  base64.DecodeString (random (NewHeader bits resource now nonce int63)) = Some nonce.
Proof.
  intros Hb Hi Hr Hd Hn. split.
  - unfold Challenge. apply ParseHeaderString_String.
    unfold printable, NewHeader, Int.is_int64, Int.minInt64, Int.maxInt64.
    cbn.
    repeat split; try assumption; try lia.
    apply contains_EncodeToString.
  - apply DecodeString_EncodeToString.
Qed.
End CodecMore.

Lemma ParseHeaderString_normalises_witness :
  Concrete.ParseHeaderString
    (String_ (mkHeader 1 2 "2201010000" "resource" "cmFuZG9t" 1000))
  = Ok (mkHeader 1 2 "2201010000" "resource" "cmFuZG9t" 1000).
Proof.
  apply (ParseHeaderString_normalises timefmt.Parse_FormatDate header2_ext).
  vm_compute. reflexivity.
Defined.

Lemma ParseHeaderString_Challenge_witness :
  Concrete.ParseHeaderString (Challenge 12 "resource" "2201010000" "0123456789" 1000)
  = Ok (NewHeader 12 "resource" "2201010000" "0123456789" 1000).
Proof.
  refine (proj1 (ParseHeaderString_Challenge timefmt.Parse_FormatDate
                   12 "resource" "2201010000" "0123456789" 1000 _ _ _ _ _));
    try reflexivity; lia.
Defined.

(** * Further properties of the engine *)

Section EngineMore.
Variable timefmt_Parse : string -> bool.
Variable Sum256 : string -> list byte.
Hypothesis Sum256_has_Size : forall msg, List.length (Sum256 msg) = sha256.Size.

(** what a returning loop has gone through *)
Lemma Calculate_loop_first (fuel : nat) : forall (header : Header) (bits : Z)
    (hasher hasher' : Hash) (r : string),
  Calculate_loop Sum256 fuel header bits hasher = (Ok r, hasher') ->
  exists k : nat,
    (k < fuel)%nat /\
    r = String_ (after_increments k header) /\ hasher' = r /\
    (forall j, (j < k)%nat ->
       checkBits (Sum256 (String_ (after_increments j header))) bits = Ok false) /\
    checkBits (Sum256 (String_ (after_increments k header))) bits = Ok true.
Proof.
  induction fuel as [|fuel IH]; intros header bits hasher hasher' r.
  - cbn. discriminate.
  - cbn [Calculate_loop]. unfold bind at 1. rewrite getHash_sequential.
    unfold bind at 1, lift at 1.
    destruct (checkBits (Sum256 (String_ header)) bits) as [[|] | | |] eqn:Hc;
      try discriminate; cbn [negb].
    + unfold ret. intros H. inversion H; subst. exists O.
      split; [lia |]. split; [reflexivity |]. split; [reflexivity |].
      split; [intros j Hj; lia | exact Hc].
    + intros H. apply IH in H. destruct H as [k [Hk [Hr [Hh [Hfail Hpass]]]]].
      exists (S k). split; [lia |]. split; [exact Hr |]. split; [exact Hh |].
      split; [| exact Hpass].
      intros [|j] Hj; [exact Hc | apply Hfail; lia].
Qed.

(** X7. Calculate returns a result exactly when, within its iterations,
    some counter reached by increments from the challenge's counter gives
    a digest that passes the bit test while every earlier one fails it;
    the result is the serialization at the first such counter, and more
    iterations do not change it. *)
Theorem Calculate_first_counter (c : string) (h : Header) (fuel : nat)
    (r : string) (hasher : Hash) :
  ParseHeaderString timefmt_Parse c = Ok h ->
  (fst (Calculate timefmt_Parse Sum256 fuel c hasher) = Ok r <->
   exists k : nat,
     (k < fuel)%nat /\ r = String_ (after_increments k h) /\
     (forall j, (j < k)%nat ->
        checkBits (Sum256 (String_ (after_increments j h))) (bits h) = Ok false) /\
     checkBits (Sum256 (String_ (after_increments k h))) (bits h) = Ok true) /\
  (fst (Calculate timefmt_Parse Sum256 fuel c hasher) = Ok r ->
   forall fuel' hasher', (fuel <= fuel')%nat ->
     fst (Calculate timefmt_Parse Sum256 fuel' c hasher') = Ok r).
Proof.
  intros Hp.
  assert (Hfwd : fst (Calculate timefmt_Parse Sum256 fuel c hasher) = Ok r ->
                 exists k : nat,
                   (k < fuel)%nat /\ r = String_ (after_increments k h) /\
                   (forall j, (j < k)%nat ->
                      checkBits (Sum256 (String_ (after_increments j h))) (bits h)
                      = Ok false) /\
                   checkBits (Sum256 (String_ (after_increments k h))) (bits h) = Ok true).
  { unfold Calculate, bind at 1, lift. rewrite Hp. cbn [wrap_error].
    destruct (Calculate_loop Sum256 fuel h (bits h) hasher) as [o st] eqn:Hl.
    cbn [fst]. intros ->.
    apply Calculate_loop_first in Hl. destruct Hl as [k [Hk [Hr [_ [Hf Hpass]]]]].
    exists k. auto. }
  split; [split; [exact Hfwd |] |].
  - intros [k [Hk [-> [Hf Hpass]]]].
    apply (Calculate_returns timefmt_Parse Sum256 c h k fuel hasher Hp Hf Hpass Hk).
  - intros H fuel' hasher' Hle. apply Hfwd in H.
    destruct H as [k [Hk [-> [Hf Hpass]]]].
    apply (Calculate_returns timefmt_Parse Sum256 c h k fuel' hasher' Hp Hf Hpass).
    lia.
Qed.

(** X8. For a challenge of bits 0 Calculate returns after one digest,
    with the serialization of the parsed challenge: the counter is not
    incremented. *)
Theorem Calculate_zero_bits (c : string) (h : Header) (fuel : nat) (hasher : Hash) :
  ParseHeaderString timefmt_Parse c = Ok h ->
  bits h = 0 ->
  Calculate timefmt_Parse Sum256 (S fuel) c hasher = (Ok (String_ h), String_ h).
Proof.
  intros Hp Hb. unfold Calculate, bind at 1, lift. rewrite Hp. cbn [wrap_error].
  rewrite Hb. cbn [Calculate_loop]. unfold bind at 1. rewrite getHash_sequential.
  unfold bind at 1, lift at 1. rewrite checkBits_zero_target. reflexivity.
Qed.

(** X9. A header string that does not parse: Calculate returns the parse
    error without a digest computation; Verify reports the parse error of
    the result before it looks at the challenge, and the parse error of
    the challenge when only the challenge is bad; the hasher is left as it
    was. *)
Theorem parse_errors_propagate (calculated challenge : string) (e : error)
    (fuel : nat) (hasher : Hash) :
  ParseHeaderString timefmt_Parse calculated = Err e ->
  Calculate timefmt_Parse Sum256 fuel calculated hasher
  = (Err (ParseHeaderStringFailed e), hasher) /\
  Verify timefmt_Parse Sum256 calculated challenge hasher
  = (Err (ParseCalculated e), hasher) /\
  (forall good h, ParseHeaderString timefmt_Parse good = Ok h ->
     Verify timefmt_Parse Sum256 good calculated hasher
     = (Err (ParseChallenge e), hasher)).
Proof.
  intros He. split; [| split].
  - unfold Calculate, bind, lift. rewrite He. reflexivity.
  - unfold Verify, bind at 1, lift at 1. rewrite He. reflexivity.
  - intros good h Hg. unfold Verify, bind at 1, lift at 1. rewrite Hg.
    cbn [wrap_error]. unfold bind at 1, lift at 1. rewrite He. reflexivity.
Qed.

(** X10. A challenge whose bits exceed 256, the bit length of the digest,
    has no result: Calculate never returns one; from 264 bits on the
    first bit test panics, in Calculate and, for a result of the same
    challenge, in Verify. *)
Theorem Calculate_beyond_digest (c : string) (h : Header) :
  ParseHeaderString timefmt_Parse c = Ok h ->
  256 < bits h ->
  (forall fuel hasher r, fst (Calculate timefmt_Parse Sum256 fuel c hasher) <> Ok r) /\
  (264 <= bits h ->
   (forall fuel hasher,
      fst (Calculate timefmt_Parse Sum256 (S fuel) c hasher)
      = Panic SliceBoundsOutOfRange) /\
   (forall hasher,
      fst (Verify timefmt_Parse Sum256 c c hasher) = Panic SliceBoundsOutOfRange)).
Proof.
  intros Hp Hb. split.
  - intros fuel hasher r H.
    destruct (Calculate timefmt_Parse Sum256 fuel c hasher) as [o st] eqn:Hc.
    cbn [fst] in H. subst o.
    apply (Calculate_Ok _ _ Sum256_has_Size) in Hc.
    destruct Hc as [h0 [h1 [Hp0 [_ [Hs [_ Hpass]]]]]].
    rewrite Hp in Hp0. inversion Hp0; subst h0.
    destruct Hs as [_ [Eb _]].
    destruct (ParseHeaderString_Ok _ _ _ Hp) as [_ [[Hb0 _] _]].
    apply checkBits_true_bound in Hpass; [| rewrite Eb; exact Hb0].
    rewrite Sum256_has_Size in Hpass. unfold sha256.Size in Hpass. lia.
  - intros Hb'.
    assert (Hpanic : forall msg, checkBits (Sum256 msg) (bits h)
                                 = Panic SliceBoundsOutOfRange).
    { intros msg. apply checkBits_slice_panic.
      rewrite Sum256_has_Size. unfold sha256.Size.
      Z.div_mod_to_equations. lia. }
    split.
    + intros fuel hasher. unfold Calculate, bind at 1, lift. rewrite Hp.
      cbn [wrap_error Calculate_loop]. unfold bind at 1. rewrite getHash_sequential.
      unfold bind at 1, lift at 1. rewrite Hpanic. reflexivity.
    + intros hasher. rewrite (Verify_parsed _ Sum256 _ _ _ _ hasher Hp Hp).
      rewrite (proj2 (same_challengeb_spec h h)) by (repeat split).
      rewrite Hpanic. reflexivity.
Qed.

(** X11. Verify reads the challenge for its five bound fields only: a
    result gets the same outcome against two challenge strings that parse
    to the same version, bits, date, resource and random, whatever their
    counters and extension fields. *)
Theorem Verify_ignores_challenge_counter (r c1 c2 : string) (h1 h2 : Header)
    (hasher : Hash) :
  ParseHeaderString timefmt_Parse c1 = Ok h1 ->
  ParseHeaderString timefmt_Parse c2 = Ok h2 ->
  same_challenge h1 h2 ->
  Verify timefmt_Parse Sum256 r c1 hasher = Verify timefmt_Parse Sum256 r c2 hasher.
Proof.
  intros H1 H2 Hs. unfold Verify, bind at 1 3, lift at 1 4.
  destruct (ParseHeaderString timefmt_Parse r) as [hr | e | p |]; cbn [wrap_error];
    try reflexivity.
  unfold bind at 1 3, lift at 1 4. rewrite H1, H2. cbn [wrap_error].
  destruct Hs as [Ev [Eb [Ed [Er En]]]]. rewrite Ev, Eb, Ed, Er, En. reflexivity.
Qed.
End EngineMore.

Lemma wrap_int64_succ (x : Z) :
  Int.wrap_int64 (Int.wrap_int64 x + 1) = Int.wrap_int64 (x + 1).
Proof.
  unfold Int.wrap_int64, Int.uint64_mod.
  replace ((x + 2 ^ 63) mod 2 ^ 64 - 2 ^ 63 + 1 + 2 ^ 63)
    with ((x + 2 ^ 63) mod 2 ^ 64 + 1) by lia.
  rewrite Zplus_mod_idemp_l. f_equal. f_equal. lia.
Qed.

Lemma wrap_int64_id (x : Z) : Int.is_int64 x -> Int.wrap_int64 x = x.
Proof.
  unfold Int.is_int64, Int.minInt64, Int.maxInt64, Int.wrap_int64, Int.uint64_mod.
  intros H. rewrite Z.mod_small; lia.
Qed.

(** the header after [k] increments *)
Lemma after_increments_counter (k : nat) : forall h : Header,
  Int.is_int64 (counter h) ->
  after_increments k h
  = mkHeader (version h) (bits h) (date h) (resource h) (random h)
             (Int.wrap_int64 (counter h + Z.of_nat k)).
Proof.
  induction k as [|k IH]; intros h Hc.
  - cbn [after_increments]. rewrite Z.add_0_r, wrap_int64_id by exact Hc.
    destruct h; reflexivity.
  - cbn [after_increments]. rewrite IH by apply wrap_int64_range.
    unfold incr_counter. cbn [version bits date resource random counter].
    f_equal. rewrite Nat2Z.inj_succ.
    clear IH. induction k as [|k IHk].
    + cbn [Z.of_nat]. rewrite Z.add_0_r, wrap_int64_id by apply wrap_int64_range.
      reflexivity.
    + rewrite Nat2Z.inj_succ.
      replace (Int.wrap_int64 (counter h + 1) + Z.succ (Z.of_nat k))
        with (Int.wrap_int64 (counter h + 1) + Z.of_nat k + 1) by lia.
      rewrite <- wrap_int64_succ, IHk, wrap_int64_succ. f_equal. lia.
Qed.

Section EngineCounter.
Variable timefmt_Parse : string -> bool.
Variable Sum256 : string -> list byte.
Hypothesis Sum256_has_Size : forall msg, List.length (Sum256 msg) = sha256.Size.

(** X12. The result of Calculate parses to the header of the challenge
    with the counter advanced by the number of increments made, fewer
    than the iterations run, in the wrap-around arithmetic of int64: past
    the largest int64 the counter goes on from the least. *)
Theorem Calculate_result_counter (c r : string) (h : Header) (fuel : nat)
    (hasher hasher' : Hash) :
  ParseHeaderString timefmt_Parse c = Ok h ->
  Calculate timefmt_Parse Sum256 fuel c hasher = (Ok r, hasher') ->
  exists k : nat,
    (k < fuel)%nat /\
    ParseHeaderString timefmt_Parse r
    = Ok (mkHeader (version h) (bits h) (date h) (resource h) (random h)
                   (Int.wrap_int64 (counter h + Z.of_nat k))).
Proof.
  intros Hp Hc.
  unfold Calculate, bind at 1, lift in Hc. rewrite Hp in Hc. cbn [wrap_error] in Hc.
  apply Calculate_loop_first in Hc. destruct Hc as [k [Hk [Hr [_ [_ Hpass]]]]].
  exists k. split; [exact Hk |].
  destruct (ParseHeaderString_Ok _ _ _ Hp) as [Hv [Hu [Hi [Hd [Hn1 [Hn2 Hn3]]]]]].
  apply checkBits_true_bound in Hpass; [| apply Hu].
  rewrite Sum256_has_Size in Hpass. unfold sha256.Size in Hpass.
  rewrite Hr, (after_increments_counter k h Hi).
  apply ParseHeaderString_String. unfold printable.
  cbn [version bits date resource random counter].
  unfold Int.is_uint64 in Hu.
  repeat split; try assumption; try lia; apply wrap_int64_range.
Qed.
End EngineCounter.

Lemma Calculate_first_counter_witness :
  exists k : nat,
    (k < 3)%nat /\ result4 = String_ (after_increments k header4) /\
    (forall j, (j < k)%nat ->
       checkBits (sha256.Sum256 (String_ (after_increments j header4))) (bits header4)
       = Ok false) /\
    checkBits (sha256.Sum256 (String_ (after_increments k header4))) (bits header4)
    = Ok true.
Proof.
  apply (proj1 (Calculate_first_counter timefmt.Parse_FormatDate sha256.Sum256
                  challenge4 header4 3 result4 Concrete.hasher eq_refl)).
  vm_compute. reflexivity.
Defined.

Lemma Calculate_zero_bits_witness :
  Calculate timefmt.Parse_FormatDate sha256.Sum256 1 challenge0 Concrete.hasher
  = (Ok challenge0, challenge0).
Proof.
  exact (Calculate_zero_bits timefmt.Parse_FormatDate sha256.Sum256 challenge0
           (mkHeader 1 0 "2201010000" "resource" "cmFuZG9t" 1000) 0 Concrete.hasher
           eq_refl eq_refl).
Defined.

Lemma parse_errors_propagate_witness :
  Verify timefmt.Parse_FormatDate sha256.Sum256 "corrupted" challenge12 Concrete.hasher
  = (Err (ParseCalculated MalformedHeader), Concrete.hasher).
Proof.
  exact (proj1 (proj2 (parse_errors_propagate timefmt.Parse_FormatDate sha256.Sum256
                         "corrupted" challenge12 MalformedHeader 0 Concrete.hasher
                         eq_refl))).
Defined.

Lemma Calculate_beyond_digest_witness :
  fst (Calculate timefmt.Parse_FormatDate sha256.Sum256 1 challenge264 Concrete.hasher)
  = Panic SliceBoundsOutOfRange.
Proof.
  refine (proj1 (proj2 (Calculate_beyond_digest timefmt.Parse_FormatDate sha256.Sum256
                          Sum256_Size challenge264
                          (mkHeader 1 264 "2201010000" "resource" "cmFuZG9t" 1000) _ _)
                       _) 0%nat Concrete.hasher).
  - vm_compute. reflexivity.
  - cbn [bits]. lia.
  - cbn [bits]. lia.
Defined.

Lemma Verify_ignores_challenge_counter_witness :
  Verify timefmt.Parse_FormatDate sha256.Sum256 result12 challenge12 Concrete.hasher
  = Verify timefmt.Parse_FormatDate sha256.Sum256 result12 near12 Concrete.hasher.
Proof.
  refine (Verify_ignores_challenge_counter timefmt.Parse_FormatDate sha256.Sum256
            result12 challenge12 near12 _ _ Concrete.hasher _ _ _).
  - vm_compute. reflexivity.
  - vm_compute. reflexivity.
  - repeat split.
Defined.

Lemma Calculate_result_counter_witness :
  exists k : nat,
    (k < 3)%nat /\
    Concrete.ParseHeaderString result4
    = Ok (mkHeader 1 4 "2201010000" "resource" "cmFuZG9t"
                   (Int.wrap_int64 (1090 + Z.of_nat k))).
Proof.
  refine (Calculate_result_counter timefmt.Parse_FormatDate sha256.Sum256 Sum256_Size
            challenge4 result4 header4 3 Concrete.hasher result4 _ _).
  - vm_compute. reflexivity.
  - vm_compute. reflexivity.
Defined.

(** * Properties of the handlers and the quote service *)

Import logger conn_handler.
Local Open Scope list_scope.

Lemma FileGetter_Get_In (g : service.FileGetter) (id : string) :
  In id (service.FileGetter_GetIds g) ->
  In (id, service.FileGetter_Get g id) g.
Proof.
  induction g as [|[k q] g IH]; cbn [service.FileGetter_GetIds map fst In
                                      service.FileGetter_Get].
  - tauto.
  - intros H. destruct (String.eqb_spec k id) as [-> | Hne].
    + left. reflexivity.
    + right. apply IH. destruct H as [H | H]; [contradiction | exact H].
Qed.


(** the runs of [pow_test.go] with the numbers of logger calls the tests
    assert *)
Example TestProofOfWork_ServeTCP_correct :
  let r := ServeTCP (test_handler true) (test_world result12 false) test_conn in
  conn_events (flow r) = [ConnRead; ConnWrite challenge12; NextServeTCP; ConnClose] /\
  map (fun l => count_Log l (flow r ++ goroutine r))
      [LevelInfo; LevelDebug; LevelWarn; LevelError] = [3; 1; 0; 0]%nat.
Proof. split; reflexivity. Qed.

Example TestProofOfWork_ServeTCP_verification_timeout :
  let r := ServeTCP (test_handler true) (test_world result12 true) test_conn in
  conn_events (flow r)
  = [ConnRead; ConnWrite challenge12; ConnWrite "context done"; ConnClose] /\
  map (fun l => count_Log l (flow r ++ goroutine r))
      [LevelInfo; LevelDebug; LevelWarn; LevelError] = [3; 2; 1; 0]%nat.
Proof. split; reflexivity. Qed.

Example TestProofOfWork_ServeTCP_verification_failed :
  let r := ServeTCP (test_handler false) (test_world wrong12 false) test_conn in
  conn_events (flow r)
  = [ConnRead; ConnWrite challenge12; ConnWrite "PoW verification failed"; ConnClose] /\
  map (fun l => count_Log l (flow r ++ goroutine r))
      [LevelInfo; LevelDebug; LevelWarn; LevelError] = [3; 2; 1; 0]%nat.
Proof. split; reflexivity. Qed.

(** the runs of the tests of [WordOfWisdomHandler] *)
Example TestWordOfWisdomHandler_ServeTCP :
  let count r := map (fun l => count_Log l (flow r))
                     [LevelInfo; LevelDebug; LevelWarn; LevelError] in
  count (WordOfWisdom_ServeTCP (service.Quoted "random quote") false test_conn)
  = [1; 1; 0; 0]%nat /\
  count (WordOfWisdom_ServeTCP (service.QuoteErr service.GetRandomQuoteId) false test_conn)
  = [1; 1; 0; 1]%nat /\
  count (WordOfWisdom_ServeTCP (service.Quoted "random quote") true test_conn)
  = [1; 1; 1; 0]%nat.
Proof. repeat split. Qed.

Lemma conn_events_app (a b : list event) :
  conn_events (a ++ b) = conn_events a ++ conn_events b.
Proof. apply filter_app. Qed.

Lemma conn_events_writeMessage (m : string) (conn : Conn) :
  conn_events (writeMessage m conn) = [ConnWrite m].
Proof. unfold writeMessage. destruct (Write_fails conn m); reflexivity. Qed.

Lemma conn_events_closeConn (conn : Conn) : conn_events (closeConn conn) = [ConnClose].
Proof. unfold closeConn. destruct (Close_fails conn); reflexivity. Qed.

Lemma conn_events_handleCtxDone (conn : Conn) :
  conn_events (handleCtxDone conn) = [ConnWrite "context done"; ConnClose].
Proof.
  unfold handleCtxDone.
  rewrite !conn_events_app, conn_events_writeMessage, conn_events_closeConn. reflexivity.
Qed.

Lemma In_conn_events (e : event) (events : list event) :
  In e (conn_events events) -> In e events.
Proof. unfold conn_events. intros H. apply filter_In in H. apply H. Qed.

Lemma NextServeTCP_conn_events (events : list event) :
  In NextServeTCP events <-> In NextServeTCP (conn_events events).
Proof.
  split; [| apply In_conn_events].
  intros H. apply filter_In. split; [exact H | reflexivity].
Qed.

Lemma ServeTCP_select_served (h : ProofOfWork) (w : World) (conn : Conn)
    (err : option go_error) (sent : option verificationResult) (g_end : ending)
    (challenge_str : string) :
  served h ([ConnRead; ConnWrite challenge_str]
            ++ conn_events (fst (ServeTCP_select h w conn err sent g_end)))
         (snd (ServeTCP_select h w conn err sent g_end)).
Proof.
  unfold ServeTCP_select.
  destruct (deadline_first w).
  { cbn [fst snd]. rewrite conn_events_handleCtxDone.
    apply served_notice. left. reflexivity. }
  destruct sent as [v |].
  - destruct (conn_handler.err v) as [e |].
    + destruct (Error_returns (log h) err) eqn:He; cbn [fst snd].
      * rewrite !conn_events_app, conn_events_writeMessage, conn_events_closeConn.
        apply served_notice. right. left. reflexivity.
      * apply served_log_panic.
        unfold Error_returns in He. destruct err; [discriminate | exact He].
    + destruct (ok v); cbn [negb fst snd].
      * rewrite !conn_events_app. apply served_passed.
      * rewrite !conn_events_app, conn_events_writeMessage, conn_events_closeConn.
        apply served_notice. right. right. left. reflexivity.
  - destruct g_end; cbn [fst snd].
    + rewrite conn_events_handleCtxDone. apply served_notice. left. reflexivity.
    + apply served_goroutine_panic.
Qed.

Lemma ServeTCP_served (h : ProofOfWork) (w : World) (conn : Conn) :
  served h (conn_events (flow (ServeTCP h w conn))) (flow_end (ServeTCP h w conn)).
Proof.
  unfold ServeTCP.
  destruct (first_read w) as [tmp err].
  destruct (match err with Some e => negb (is_EOF e) | None => false end).
  { cbn [flow flow_end]. rewrite conn_events_app, conn_events_closeConn.
    apply served_fatal_read. }
  destruct (handler.ServeTCP_bits (complexity h) (draw w)) as [bits | | |];
    try apply served_Intn_panic.
  destruct (challenge h (Int.to_uint64 bits) (uuid w)) as [challenge_str cerr].
  destruct (getVerificationResult h w conn challenge_str) as [[g_events sent] g_end].
  pose proof (ServeTCP_select_served h w conn cerr sent g_end challenge_str) as Hs.
  destruct (ServeTCP_select h w conn cerr sent g_end) as [s_events s_end].
  cbn [flow flow_end fst snd] in *.
  rewrite !conn_events_app, conn_events_writeMessage. exact Hs.
Qed.

Lemma no_NextServeTCP_handleCtxDone (conn : Conn) :
  ~ In NextServeTCP (handleCtxDone conn).
Proof.
  rewrite NextServeTCP_conn_events, conn_events_handleCtxDone.
  cbn [In]. intuition discriminate.
Qed.

Lemma no_NextServeTCP_notice (l : Level) (m n : string) (conn : Conn) :
  ~ In NextServeTCP ([Log l m] ++ writeMessage n conn ++ closeConn conn).
Proof.
  rewrite NextServeTCP_conn_events, !conn_events_app, conn_events_writeMessage,
    conn_events_closeConn.
  cbn [conn_events filter app In]. intuition discriminate.
Qed.

(** when the select of [ServeTCP] goes on to the next handler *)
Lemma ServeTCP_select_next (h : ProofOfWork) (w : World) (conn : Conn)
    (err : option go_error) (sent : option verificationResult) (g_end : ending) :
  In NextServeTCP (fst (ServeTCP_select h w conn err sent g_end)) <->
  deadline_first w = false /\
  exists v, sent = Some v /\ conn_handler.err v = None /\ ok v = true.
Proof.
  unfold ServeTCP_select.
  destruct (deadline_first w).
  { cbn [fst]. split; [intros H; destruct (no_NextServeTCP_handleCtxDone conn H) |].
    intros [H _]; discriminate. }
  destruct sent as [v |].
  - destruct (conn_handler.err v) as [e |] eqn:Ee.
    + destruct (Error_returns (log h) err); cbn [fst].
      * split; [intros H; destruct (no_NextServeTCP_notice _ _ _ _ H) |].
        intros [_ [v' [Hv [He _]]]]. inversion Hv; subst v'. congruence.
      * split; [intros [] |].
        intros [_ [v' [Hv [He _]]]]. inversion Hv; subst v'. congruence.
    + destruct (ok v) eqn:Eo; cbn [negb fst].
      * split; [| intros _; cbn [app In]; auto].
        intros _. split; [reflexivity |]. exists v. auto.
      * split; [intros H; destruct (no_NextServeTCP_notice _ _ _ _ H) |].
        intros [_ [v' [Hv [_ Ho]]]]. inversion Hv; subst v'. congruence.
  - split.
    + destruct g_end; cbn [fst]; [| intros []].
      intros H; destruct (no_NextServeTCP_handleCtxDone conn H).
    + intros [_ [v [Hv _]]]. discriminate.
Qed.

(** what the goroutine sends when it sends a passed verification *)
Lemma getVerificationResult_passed (h : ProofOfWork) (w : World) (conn : Conn)
    (challenge_str : string) :
  (exists v, snd (fst (getVerificationResult h w conn challenge_str)) = Some v /\
             conn_handler.err v = None /\ ok v = true) <->
  snd (second_read w) = None /\
  verify h (fst (second_read w)) challenge_str = Ok true.
Proof.
  unfold getVerificationResult.
  destruct (second_read w) as [tmp [e |]]; cbn [fst snd].
  - split; [| intros [H _]; discriminate].
    destruct (is_EOF e); [| destruct (is_net_Error e)]; cbn [fst snd];
      intros [v [Hv [He Ho]]]; try discriminate.
    inversion Hv; subst v. discriminate.
  - destruct (verify h tmp challenge_str) as [[|] | e | p |]; cbn [fst snd].
    + split; [auto |]. intros _. eexists. split; [reflexivity |]. split; reflexivity.
    + split; [| intros [_ H]; discriminate].
      intros [v [Hv [He Ho]]]. inversion Hv; subst v. discriminate.
    + split; [| intros [_ H]; discriminate].
      intros [v [Hv [He Ho]]]. inversion Hv; subst v. discriminate.
    + split; [| intros [_ H]; discriminate].
      intros [v [Hv _]]. discriminate.
    + split; [| intros [_ H]; discriminate].
      intros [v [Hv _]]. discriminate.
Qed.

(** when [ServeTCP] goes on to the next handler *)
Lemma ServeTCP_next (h : ProofOfWork) (w : World) (conn : Conn) :
  In NextServeTCP (flow (ServeTCP h w conn)) <->
  first_read_fatal w = false /\ deadline_first w = false /\
  snd (second_read w) = None /\
  exists bits,
    handler.ServeTCP_bits (complexity h) (draw w) = Ok bits /\
    verify h (fst (second_read w)) (fst (challenge h (Int.to_uint64 bits) (uuid w)))
    = Ok true.
Proof.
  unfold ServeTCP, first_read_fatal.
  destruct (first_read w) as [tmp err]. cbn [snd].
  destruct (match err with Some e => negb (is_EOF e) | None => false end).
  { cbn [flow]. split; [| intros [H _]; discriminate].
    rewrite NextServeTCP_conn_events, conn_events_app, conn_events_closeConn.
    cbn [conn_events filter app In]. intuition discriminate. }
  destruct (handler.ServeTCP_bits (complexity h) (draw w)) as [bits | e | p |].
  2-4: cbn [flow]; split;
    [cbn [In]; intuition discriminate | intros [_ [_ [_ [b [Hb _]]]]]; discriminate].
  destruct (challenge h (Int.to_uint64 bits) (uuid w)) as [challenge_str cerr] eqn:Ec.
  pose proof (getVerificationResult_passed h w conn challenge_str) as Hg.
  destruct (getVerificationResult h w conn challenge_str) as [[g_events sent] g_end].
  pose proof (ServeTCP_select_next h w conn cerr sent g_end) as Hs.
  destruct (ServeTCP_select h w conn cerr sent g_end) as [s_events s_end].
  cbn [flow fst snd] in *.
  assert (Hin : In NextServeTCP
                  (([ConnRead; Log LevelInfo "got message"]
                    ++ writeMessage challenge_str conn) ++ s_events)
                <-> In NextServeTCP s_events).
  { rewrite !in_app_iff. split; [| auto].
    intros [[H | H] | H]; [| | exact H].
    - cbn [In] in H. intuition discriminate.
    - apply NextServeTCP_conn_events in H. rewrite conn_events_writeMessage in H.
      cbn [In] in H. intuition discriminate. }
  rewrite Hin, Hs. split.
  - intros [Hd Hv]. apply Hg in Hv. destruct Hv as [Hr Hv].
    split; [reflexivity |]. split; [exact Hd |]. split; [exact Hr |].
    exists bits. split; [reflexivity |]. rewrite Ec. exact Hv.
  - intros [_ [Hd [Hr [b [Hb Hv]]]]]. inversion Hb; subst b.
    rewrite Ec in Hv.
    split; [exact Hd |]. apply Hg. split; [exact Hr | exact Hv].
Qed.

(** X13. ProofOfWork.ServeTCP calls the next handler exactly when the
    first read is not fatal, the bits can be drawn, the second read
    succeeds, the verify function returns true with no error on what was
    read and the challenge that was written, and the select does not find
    the deadline first. *)
Theorem ServeTCP_hands_over_iff (h : ProofOfWork) (w : World) (conn : Conn) :
  In NextServeTCP (flow (ServeTCP h w conn)) <->
  first_read_fatal w = false /\ deadline_first w = false /\
  snd (second_read w) = None /\
  exists bits,
    handler.ServeTCP_bits (complexity h) (draw w) = Ok bits /\
    verify h (fst (second_read w)) (fst (challenge h (Int.to_uint64 bits) (uuid w)))
    = Ok true.
Proof. apply ServeTCP_next. Qed.

Lemma ServeTCP_hands_over_iff_witness :
  In NextServeTCP (flow (ServeTCP (test_handler true) (test_world result12 false) test_conn)).
Proof.
  apply (proj2 (ServeTCP_hands_over_iff (test_handler true) (test_world result12 false)
                  test_conn)).
  repeat split. exists 15. split; reflexivity.
Defined.

(** X14. A run of ProofOfWork.ServeTCP that returns has either called the
    next handler, after the read and the write of the challenge and
    without closing the connection itself; or it has not, and its last
    call on the connection is the one Close, after the read alone (a
    fatal first read) or after the read, the challenge and one of the
    three notices. *)
Theorem ServeTCP_closes_or_hands_over (h : ProofOfWork) (w : World) (conn : Conn) :
  flow_end (ServeTCP h w conn) = Returns ->
  (In NextServeTCP (flow (ServeTCP h w conn)) /\
   exists challenge_str,
     conn_events (flow (ServeTCP h w conn))
     = [ConnRead; ConnWrite challenge_str; NextServeTCP] ++ conn_events (handler h)) \/
  (~ In NextServeTCP (flow (ServeTCP h w conn)) /\
   (conn_events (flow (ServeTCP h w conn)) = [ConnRead; ConnClose] \/
    exists challenge_str notice,
      In notice notices /\
      conn_events (flow (ServeTCP h w conn))
      = [ConnRead; ConnWrite challenge_str; ConnWrite notice; ConnClose])).
Proof.
  intros He. pose proof (ServeTCP_served h w conn) as Hs.
  rewrite He in Hs. rewrite (NextServeTCP_conn_events (flow (ServeTCP h w conn))).
  inversion Hs as [Hc | | ch notice Hn Hc | | | ch Hc].
  - right. split; [cbn [In]; intuition discriminate | left; reflexivity].
  - right. split; [cbn [In]; intuition discriminate |].
    right. exists ch, notice. split; [exact Hn | reflexivity].
  - left. split; [cbn [app In]; auto |]. exists ch. reflexivity.
Qed.

Lemma ServeTCP_closes_or_hands_over_witness :
  let r := ServeTCP (test_handler false) (test_world wrong12 false) test_conn in
  (In NextServeTCP (flow r) /\
   exists challenge_str,
     conn_events (flow r)
     = [ConnRead; ConnWrite challenge_str; NextServeTCP]
       ++ conn_events (handler (test_handler false))) \/
  (~ In NextServeTCP (flow r) /\
   (conn_events (flow r) = [ConnRead; ConnClose] \/
    exists challenge_str notice,
      In notice notices /\
      conn_events (flow r)
      = [ConnRead; ConnWrite challenge_str; ConnWrite notice; ConnClose])).
Proof.
  exact (ServeTCP_closes_or_hands_over (test_handler false) (test_world wrong12 false)
           test_conn eq_refl).
Defined.

Lemma ServeTCP_bits_Ok (complexity draw : Z) :
  Int.is_int64 complexity -> 10 < complexity ->
  exists bits, handler.ServeTCP_bits complexity draw = Ok bits /\
               10 <= bits < complexity /\ Int.to_uint64 bits = bits.
Proof.
  unfold Int.is_int64, Int.minInt64, Int.maxInt64. intros Hi Hc.
  unfold handler.ServeTCP_bits, rand.Intn, Int.wrap_int64, Int.to_uint64, Int.uint64_mod.
  rewrite (Z.mod_small (complexity - 10 + 2 ^ 63)) by lia.
  replace (complexity - 10 + 2 ^ 63 - 2 ^ 63) with (complexity - 10) by lia.
  destruct (Z.leb_spec (complexity - 10) 0) as [? | _]; [lia |].
  cbn [res_bind].
  pose proof (Z.mod_pos_bound draw (complexity - 10) ltac:(lia)) as Hd.
  rewrite (Z.mod_small (draw mod (complexity - 10) + 10 + 2 ^ 63)) by lia.
  eexists. split; [reflexivity |]. split; [lia |]. apply Z.mod_small. lia.
Qed.

(** X15. With a complexity from the least int plus 10 up to 10, every
    connection whose first read is not fatal ends in the panic of
    rand.Intn: nothing is written, the connection is not closed. *)
Theorem ServeTCP_low_complexity (h : ProofOfWork) (w : World) (conn : Conn) :
  Int.minInt64 + 10 <= complexity h <= 10 ->
  first_read_fatal w = false ->
  flow_end (ServeTCP h w conn) = Panics /\
  flow (ServeTCP h w conn) = [ConnRead; Log LevelInfo "got message"].
Proof.
  unfold Int.minInt64. intros Hc Hf. unfold ServeTCP, first_read_fatal in *.
  destruct (first_read w) as [tmp err]. cbn [snd] in Hf. rewrite Hf.
  unfold handler.ServeTCP_bits, rand.Intn, Int.wrap_int64, Int.uint64_mod.
  rewrite (Z.mod_small (complexity h - 10 + 2 ^ 63)) by lia.
  destruct (Z.leb_spec (complexity h - 10 + 2 ^ 63 - 2 ^ 63) 0) as [_ | ?]; [| lia].
  split; reflexivity.
Qed.

Lemma ServeTCP_low_complexity_witness :
  flow_end (ServeTCP (mkProofOfWork (fun _ _ => (challenge12, None)) (fun _ _ => Ok true)
                        10 [] MockLogger)
                     (test_world result12 false) test_conn) = Panics.
Proof.
  refine (proj1 (ServeTCP_low_complexity _ _ _ _ _)).
  - unfold Int.minInt64. cbn [complexity]. lia.
  - reflexivity.
Defined.

(** X16. When the peer closes the stream while the result is awaited
    (the second read ends in io.EOF), the reading goroutine closes the
    connection and sends nothing; the flow then leaves by the deadline,
    writes the context-done notice and closes again: the connection is
    closed twice. *)
Theorem ServeTCP_peer_closes_while_awaiting (h : ProofOfWork) (w : World) (conn : Conn)
    (bits : Z) (e : go_error) :
  first_read_fatal w = false ->
  handler.ServeTCP_bits (complexity h) (draw w) = Ok bits ->
  snd (second_read w) = Some e -> is_EOF e = true ->
  let r := ServeTCP h w conn in
  conn_events (goroutine r) = [ConnRead; ConnClose] /\
  conn_events (flow r)
  = [ConnRead; ConnWrite (fst (challenge h (Int.to_uint64 bits) (uuid w)));
     ConnWrite "context done"; ConnClose] /\
  count_Close (flow r ++ goroutine r) = 2%nat.
Proof.
  intros Hf Hb Hr He r. subst r. unfold ServeTCP, first_read_fatal in *.
  destruct (first_read w) as [tmp err]. cbn [snd] in Hf. rewrite Hf, Hb.
  destruct (challenge h (Int.to_uint64 bits) (uuid w)) as [challenge_str cerr].
  unfold getVerificationResult. destruct (second_read w) as [tmp2 err2].
  cbn [snd] in Hr. subst err2. rewrite He.
  unfold ServeTCP_select. cbn [fst].
  replace (if deadline_first w then None else @None verificationResult)
    with (@None verificationResult) by (destruct (deadline_first w); reflexivity).
  replace (match deadline_first w with
           | true => (handleCtxDone conn, Returns)
           | false => (handleCtxDone conn, Returns)
           end) with (handleCtxDone conn, Returns)
    by (destruct (deadline_first w); reflexivity).
  cbn [flow goroutine].
  assert (Hg : conn_events ([ConnRead] ++ closeConn conn) = [ConnRead; ConnClose])
    by (rewrite conn_events_app, conn_events_closeConn; reflexivity).
  assert (Hfl : conn_events (([ConnRead; Log LevelInfo "got message"]
                              ++ writeMessage challenge_str conn) ++ handleCtxDone conn)
                = [ConnRead; ConnWrite challenge_str; ConnWrite "context done"; ConnClose])
    by (rewrite !conn_events_app, conn_events_writeMessage, conn_events_handleCtxDone;
        reflexivity).
  split; [exact Hg |]. split; [exact Hfl |].
  unfold count_Close, handleCtxDone, writeMessage, closeConn.
  destruct (Write_fails conn challenge_str), (Write_fails conn "context done"),
    (Close_fails conn); reflexivity.
Qed.

Lemma ServeTCP_peer_closes_while_awaiting_witness :
  let r := ServeTCP (test_handler true)
                    (mkWorld ("ping", None) ("", Some EOF) 5 "uuid" false) test_conn in
  count_Close (flow r ++ goroutine r) = 2%nat.
Proof.
  refine (proj2 (proj2 (ServeTCP_peer_closes_while_awaiting (test_handler true)
            (mkWorld ("ping", None) ("", Some EOF) 5 "uuid" false) test_conn 15 EOF
            _ _ _ _))); reflexivity.
Defined.



Section HonestClient.
Variable timefmt_Parse : string -> bool.
Variable Sum256 : string -> list byte.
Hypothesis Sum256_has_Size : forall msg, List.length (Sum256 msg) = sha256.Size.

(** X18. On the server of cmd/server, with a complexity above 10, a UUID
    without a colon and a clock reading the date check accepts: a client
    that answers the challenge with what Calculate returns for it, in one
    read and before the deadline, is handed to the next handler. *)
Theorem ServeTCP_honest_client (w : World) (conn : Conn) (hasher : Hash)
    (now nonce : string) (int63 limit : Z) (next : list event) (log : Logger)
    (fuel : nat) (hasher0 hasher1 : Hash) :
  Int.is_int64 limit -> 10 < limit ->
  0 <= int63 < 2 ^ 63 ->
  no_colon (uuid w) -> timefmt_Parse now = true -> no_colon now ->
  first_read_fatal w = false -> deadline_first w = false ->
  snd (second_read w) = None ->
  (forall bits, handler.ServeTCP_bits limit (draw w) = Ok bits ->
     Calculate timefmt_Parse Sum256 fuel
               (Challenge (Int.to_uint64 bits) (uuid w) now nonce int63) hasher0
     = (Ok (fst (second_read w)), hasher1)) ->
  let r := ServeTCP (server_handler timefmt_Parse Sum256 hasher now nonce int63
                                    limit next log) w conn in
  In NextServeTCP (flow r) /\ flow_end r = Returns.
Proof.
  intros Hi Hc Hint Hu Hnow Hnc Hf Hd Hr Hcalc r. subst r.
  destruct (ServeTCP_bits_Ok limit (draw w) Hi Hc) as [bits [Hb [Hrange Hconv]]].
  specialize (Hcalc bits Hb).
  apply (Calculate_Ok _ _ Sum256_has_Size) in Hcalc.
  destruct Hcalc as [h0 [h1 [Hp0 [_ [Hs [Hp1 Hpass]]]]]].
  assert (Hv : verify (server_handler timefmt_Parse Sum256 hasher now nonce int63
                                      limit next log)
                 (fst (second_read w))
                 (Challenge (Int.to_uint64 bits) (uuid w) now nonce int63) = Ok true).
  { cbn [server_handler verify]. unfold pow_Verify.
    rewrite (Verify_parsed _ Sum256 _ _ _ _ hasher Hp1 Hp0).
    rewrite (proj2 (same_challengeb_spec h1 h0) Hs), Hpass. reflexivity. }
  split.
  - apply ServeTCP_next. split; [exact Hf |]. split; [exact Hd |]. split; [exact Hr |].
    exists bits. split; [exact Hb | exact Hv].
  - unfold ServeTCP, first_read_fatal in *.
    destruct (first_read w) as [tmp err]. cbn [snd] in Hf. rewrite Hf.
    cbn [server_handler complexity challenge]. rewrite Hb.
    unfold pow_Challenge at 1. cbv beta.
    unfold getVerificationResult. destruct (second_read w) as [tmp2 err2].
    cbn [fst snd] in Hr, Hv. subst err2. rewrite Hv.
    unfold ServeTCP_select. rewrite Hd. reflexivity.
Qed.
End HonestClient.

Lemma ServeTCP_honest_client_witness :
  let r := ServeTCP honest_server honest_world test_conn in
  In NextServeTCP (flow r) /\ flow_end r = Returns.
Proof.
  refine (ServeTCP_honest_client timefmt.Parse_FormatDate sha256.Sum256 Sum256_Size
            honest_world test_conn Concrete.hasher "2201010000" "0123456789" 1557 11
            [] ZapLogger 3 Concrete.hasher
            "1:10:2201010000:f1a5a003-27ce-4e62-8c48-14c250965b92::MDEyMzQ1Njc4OQ==:MTU1OQ=="
            _ _ _ _ _ _ _ _ _ _);
    try reflexivity; try (unfold Int.is_int64, Int.minInt64, Int.maxInt64; lia).
  intros bits Hb. vm_compute in Hb. inversion Hb; subst bits.
  vm_compute. reflexivity.
Defined.

(** what [Quote] comes to on a service with ids *)
Lemma Quote_with_ids (g : service.Getter) (draw : Z) :
  service.GetIds g <> [] ->
  exists id, In id (service.GetIds g) /\
             service.Quote (service.NewWordOfWisdomService g) draw
             = service.Quoted (service.Get g id).
Proof.
  intros Hne. unfold service.Quote, service.NewWordOfWisdomService.
  cbn [service.ids service.getter]. unfold rand.Intn, service.IdsHolder_Len.
  assert (Hlen : 0 < Z.of_nat (List.length (service.GetIds g))).
  { destruct (service.GetIds g); [contradiction | cbn [List.length]; lia]. }
  destruct (Z.leb_spec (Z.of_nat (List.length (service.GetIds g))) 0) as [? | _]; [lia |].
  pose proof (Z.mod_pos_bound draw _ Hlen) as Hd.
  unfold service.IdsHolder_Get.
  destruct (Z.ltb_spec (draw mod Z.of_nat (List.length (service.GetIds g))) 0); [lia |].
  destruct (Z.leb_spec (Z.of_nat (List.length (service.GetIds g)))
              (draw mod Z.of_nat (List.length (service.GetIds g)))); [lia |].
  cbn [orb negb].
  eexists. split; [| reflexivity].
  apply nth_In. lia.
Qed.

(** X19. Quote on a service that holds at least one id returns a quote
    and no error, whatever the random source delivers: the quote is the
    getter's answer for one of the held ids, and for a FileGetter it is a
    quote stored under one of its keys.  The error branch of Quote is
    never taken. *)
Theorem Quote_returns_stored_quote (g : service.Getter) (draw : Z) :
  service.GetIds g <> [] ->
  (exists id, In id (service.GetIds g) /\
              service.Quote (service.NewWordOfWisdomService g) draw
              = service.Quoted (service.Get g id)) /\
  (forall fg : service.FileGetter, g = service.FileGetter_Getter fg ->
   exists id q, In (id, q) fg /\
                service.Quote (service.NewWordOfWisdomService g) draw = service.Quoted q).
Proof.
  intros Hne. split; [apply Quote_with_ids; exact Hne |].
  intros fg ->. destruct (Quote_with_ids _ draw Hne) as [id [Hin Hq]].
  cbn [service.FileGetter_Getter service.GetIds service.Get] in *.
  exists id, (service.FileGetter_Get fg id). split; [| exact Hq].
  apply FileGetter_Get_In. exact Hin.
Qed.

Lemma Quote_returns_stored_quote_witness :
  exists id q, In (id, q) two_quotes /\
    service.Quote (service.NewWordOfWisdomService (service.FileGetter_Getter two_quotes))
                  12345 = service.Quoted q.
Proof.
  refine (proj2 (Quote_returns_stored_quote (service.FileGetter_Getter two_quotes) 12345 _)
                two_quotes eq_refl).
  discriminate.
Defined.

(** X20. Quote on a service that holds no id panics in rand.Intn, it
    does not return its error; so does the goroutine of
    WordOfWisdomHandler.ServeTCP that calls it. *)
Theorem Quote_panics_without_ids (g : service.Getter) (draw : Z)
    (cancel_first : bool) (conn : Conn) :
  service.GetIds g = [] ->
  service.Quote (service.NewWordOfWisdomService g) draw
  = service.QuotePanic IntnInvalidArgument /\
  goroutine_end (WordOfWisdom_ServeTCP
                   (service.Quote (service.NewWordOfWisdomService g) draw)
                   cancel_first conn) = Panics.
Proof.
  intros He.
  assert (Hq : service.Quote (service.NewWordOfWisdomService g) draw
               = service.QuotePanic IntnInvalidArgument).
  { unfold service.Quote, service.NewWordOfWisdomService.
    cbn [service.ids service.getter]. rewrite He. reflexivity. }
  split; [exact Hq |]. rewrite Hq. unfold WordOfWisdom_ServeTCP.
  destruct cancel_first; reflexivity.
Qed.

Lemma Quote_panics_without_ids_witness :
  service.Quote (service.NewWordOfWisdomService (service.FileGetter_Getter [])) 7
  = service.QuotePanic IntnInvalidArgument.
Proof.
  exact (proj1 (Quote_panics_without_ids (service.FileGetter_Getter []) 7 false test_conn
                  eq_refl)).
Defined.

(** X21. A run of WordOfWisdomHandler.ServeTCP whose Quote call returns
    writes one message and then closes the connection once: the
    context-done notice when the select finds the context done first,
    else the quote, or the cannot-get notice when Quote returned an
    error.  With the WordOfWisdomService on a getter with ids the message
    is the context-done notice or a quote of the getter, and no error is
    logged for the quote. *)
Theorem WordOfWisdom_ServeTCP_one_write (quote : service.quoted) (cancel_first : bool)
    (conn : Conn) :
  (forall p, quote <> service.QuotePanic p) ->
  let r := WordOfWisdom_ServeTCP quote cancel_first conn in
  flow_end r = Returns /\ goroutine_end r = Returns /\
  (exists m,
     conn_events (flow r) = [ConnWrite m; ConnClose] /\
     m = (if cancel_first then "context done"%string
          else match quote with
               | service.Quoted q => q
               | _ => "cannot get a quote"%string
               end)) /\
  (forall g draw, service.GetIds g <> [] ->
     quote = service.Quote (service.NewWordOfWisdomService g) draw ->
     cancel_first = false ->
     exists id, In id (service.GetIds g) /\
                flow r = writeMessage (service.Get g id) conn ++ closeConn conn).
Proof.
  intros Hnp r. subst r. unfold WordOfWisdom_ServeTCP.
  destruct quote as [q | e | p]; [| | destruct (Hnp p eq_refl)].
  - destruct cancel_first; cbn [flow flow_end goroutine_end];
      (split; [reflexivity |]); (split; [reflexivity |]); split.
    + eexists. split; [apply conn_events_handleCtxDone | reflexivity].
    + intros g draw _ _ H. discriminate.
    + eexists. split; [| reflexivity].
      rewrite conn_events_app, conn_events_writeMessage, conn_events_closeConn.
      reflexivity.
    + intros g draw Hne Hq _. destruct (Quote_with_ids g draw Hne) as [id [Hin Hid]].
      rewrite Hid in Hq. inversion Hq; subst q. exists id. split; [exact Hin | reflexivity].
  - destruct cancel_first; cbn [flow flow_end goroutine_end];
      (split; [reflexivity |]); (split; [reflexivity |]); split.
    + eexists. split; [apply conn_events_handleCtxDone | reflexivity].
    + intros g draw _ _ H. discriminate.
    + eexists. split; [| reflexivity].
      rewrite !conn_events_app, conn_events_writeMessage, conn_events_closeConn.
      reflexivity.
    + intros g draw Hne Hq _. destruct (Quote_with_ids g draw Hne) as [id [Hin Hid]].
      rewrite Hid in Hq. discriminate.
Qed.

Lemma WordOfWisdom_ServeTCP_one_write_witness :
  exists m,
    conn_events (flow (WordOfWisdom_ServeTCP (service.Quoted "random quote") false
                         test_conn))
    = [ConnWrite m; ConnClose] /\ m = "random quote"%string.
Proof.
  refine (proj1 (proj2 (proj2 (WordOfWisdom_ServeTCP_one_write
                                 (service.Quoted "random quote") false test_conn _)))).
  intros p. discriminate.
Defined.

Lemma ServeTCP_select_writes (h : ProofOfWork) (w : World) (conn : Conn)
    (err : option go_error) (sent : option verificationResult) (g_end : ending)
    (m : string) :
  In (ConnWrite m) (conn_events (fst (ServeTCP_select h w conn err sent g_end))) ->
  In m notices \/
  (In NextServeTCP (fst (ServeTCP_select h w conn err sent g_end)) /\
   In (ConnWrite m) (handler h)).
Proof.
  assert (Hdone : In (ConnWrite m) (conn_events (handleCtxDone conn)) -> In m notices).
  { rewrite conn_events_handleCtxDone. cbn [In].
    intros [H | [H | []]]; [inversion H; left; reflexivity | discriminate]. }
  assert (Hnotice : forall l n n',
             In n' notices ->
             In (ConnWrite m)
                (conn_events ([Log l n] ++ writeMessage n' conn ++ closeConn conn)) ->
             In m notices).
  { intros l n n' Hn. rewrite !conn_events_app, conn_events_writeMessage,
      conn_events_closeConn. cbn [conn_events filter app In].
    intros [H | [H | []]]; [inversion H; subst; exact Hn | discriminate]. }
  unfold ServeTCP_select.
  destruct (deadline_first w).
  { cbn [fst]. intros H. left. apply Hdone, H. }
  destruct sent as [v |].
  - destruct (conn_handler.err v) as [e |].
    + destruct (Error_returns (log h) err); cbn [fst].
      * intros H. left. apply (Hnotice _ _ _ ltac:(right; left; reflexivity) H).
      * intros [].
    + destruct (ok v); cbn [negb fst].
      * rewrite !conn_events_app. cbn [conn_events filter app In].
        intros [H | H]; [discriminate |]. right.
        split; [auto | apply In_conn_events; exact H].
      * intros H. left.
        apply (Hnotice _ _ _ ltac:(right; right; left; reflexivity) H).
  - destruct g_end; cbn [fst]; [| intros []].
    intros H. left. apply Hdone, H.
Qed.

(** the messages a run of [ServeTCP] writes *)
Lemma ServeTCP_writes (h : ProofOfWork) (w : World) (conn : Conn) (m : string) :
  In (ConnWrite m) (conn_events (flow (ServeTCP h w conn))) ->
  (exists bits, handler.ServeTCP_bits (complexity h) (draw w) = Ok bits /\
                m = fst (challenge h (Int.to_uint64 bits) (uuid w))) \/
  In m notices \/
  (In NextServeTCP (flow (ServeTCP h w conn)) /\ In (ConnWrite m) (handler h)).
Proof.
  unfold ServeTCP.
  destruct (first_read w) as [tmp err].
  destruct (match err with Some e => negb (is_EOF e) | None => false end).
  { cbn [flow]. rewrite conn_events_app, conn_events_closeConn.
    cbn [conn_events filter app In]. intuition discriminate. }
  destruct (handler.ServeTCP_bits (complexity h) (draw w)) as [bits | | |];
    try (cbn [flow conn_events filter In]; intuition discriminate).
  destruct (challenge h (Int.to_uint64 bits) (uuid w)) as [challenge_str cerr] eqn:Ec.
  destruct (getVerificationResult h w conn challenge_str) as [[g_events sent] g_end].
  pose proof (ServeTCP_select_writes h w conn cerr sent g_end m) as Hs.
  destruct (ServeTCP_select h w conn cerr sent g_end) as [s_events s_end].
  cbn [flow fst snd] in *.
  rewrite !conn_events_app, conn_events_writeMessage.
  cbn [conn_events filter app In].
  intros [H | [H | H]]; [discriminate | |].
  { left. exists bits. split; [reflexivity |]. rewrite Ec. inversion H. reflexivity. }
  destruct (Hs H) as [Hn | [Hnext Hin]]; [right; left; exact Hn |].
  right. right. split; [| exact Hin].
  right. right. apply in_or_app. right. exact Hnext.
Qed.

(** X22. Without a verification that passed, nothing of the next handler
    reaches the connection: every message a run of ProofOfWork.ServeTCP
    writes is the challenge, one of the three notices, or a message of
    the next handler in a run that called it. *)
Theorem ServeTCP_writes_challenge_notice_or_next (h : ProofOfWork) (w : World)
    (conn : Conn) (m : string) :
  In (ConnWrite m) (flow (ServeTCP h w conn)) ->
  (exists bits, handler.ServeTCP_bits (complexity h) (draw w) = Ok bits /\
                m = fst (challenge h (Int.to_uint64 bits) (uuid w))) \/
  In m notices \/
  (In NextServeTCP (flow (ServeTCP h w conn)) /\ In (ConnWrite m) (handler h)).
Proof.
  intros H. apply ServeTCP_writes.
  unfold conn_events. apply filter_In. split; [exact H | reflexivity].
Qed.

Lemma ServeTCP_writes_challenge_notice_or_next_witness :
  (exists bits, handler.ServeTCP_bits 20 5 = Ok bits /\
                "PoW verification failed"%string = challenge12) \/
  In "PoW verification failed"%string notices \/
  (In NextServeTCP (flow (ServeTCP (test_handler false) (test_world wrong12 false)
                            test_conn)) /\
   In (ConnWrite "PoW verification failed") [ConnClose]).
Proof.
  apply (ServeTCP_writes_challenge_notice_or_next (test_handler false)
           (test_world wrong12 false) test_conn "PoW verification failed").
  cbn. auto 10.
Defined.

(** * Properties of the listener *)

Section Listener.
Context {C : Type}.
Local Open Scope list_scope.

Lemma serve_loop_facts (script : list (tcp.iteration C)) :
  tcp.served_conns (fst (tcp.serve_loop script)) = tcp.accepted_before_stop script /\
  tcp.listener_closes (fst (tcp.serve_loop script))
  = (match snd (tcp.serve_loop script) with tcp.ReturnsNil => 1 | _ => 0 end)%nat.
Proof.
  induction script as [|i script [IH1 IH2]]; [split; reflexivity |].
  destruct i as [cf | | | | conn]; cbn [tcp.serve_loop tcp.accepted_before_stop].
  - destruct cf; split; reflexivity.
  - split; reflexivity.
  - split; assumption.
  - split; reflexivity.
  - destruct (tcp.serve_loop script) as [events r]. cbn [fst snd] in *.
    cbn [tcp.served_conns tcp.listener_closes]. rewrite IH1. split; [reflexivity | exact IH2].
Qed.

(** X23. ListenAndServe starts the handler once for every connection
    accepted before the loop stops, in the order of acceptance, and for
    no other; it closes the listener exactly when it returns nil, which
    it does only on a done context: after an error of SetDeadline, of
    Accept or of SplitHostPort it returns with the listener left open. *)
Theorem ListenAndServe_serves_accepted (resolve listen split : bool)
    (script : list (tcp.iteration C)) :
  let '(events, r) := tcp.ListenAndServe resolve listen split script in
  (resolve = true -> listen = true -> split = true ->
   tcp.served_conns events = tcp.accepted_before_stop script) /\
  tcp.listener_closes events = (match r with tcp.ReturnsNil => 1 | _ => 0 end)%nat /\
  (r = tcp.ReturnsNil ->
   exists before close_fails after,
     script = before ++ tcp.ContextDone close_fails :: after /\
     tcp.without_timeouts before = map tcp.Accepted (tcp.served_conns events)).
Proof.
  unfold tcp.ListenAndServe.
  destruct resolve; cbn [negb]; [| repeat split; discriminate].
  destruct listen; cbn [negb]; [| repeat split; discriminate].
  destruct split; cbn [negb]; [| repeat split; discriminate].
  pose proof (serve_loop_facts script) as [H1 H2].
  assert (H3 : snd (tcp.serve_loop script) = tcp.ReturnsNil ->
               exists before close_fails after,
                 script = before ++ tcp.ContextDone close_fails :: after /\
                 tcp.without_timeouts before
                 = map tcp.Accepted (tcp.served_conns (fst (tcp.serve_loop script)))).
  { clear H1 H2. induction script as [|i script IH]; [discriminate |].
    destruct i as [cf | | | | conn]; cbn [tcp.serve_loop]; try discriminate.
    - intros _. exists [], cf, script. split; [reflexivity | destruct cf; reflexivity].
    - intros H. destruct (IH H) as [b [cf [a [Hs Hw]]]].
      exists (tcp.AcceptTimeout :: b), cf, a. split; [rewrite Hs; reflexivity | exact Hw].
    - destruct (tcp.serve_loop script) as [events r]. cbn [fst snd] in *.
      intros H. destruct (IH H) as [b [cf [a [Hs Hw]]]].
      exists (tcp.Accepted conn :: b), cf, a. split; [rewrite Hs; reflexivity |].
      unfold tcp.without_timeouts in *. cbn [filter tcp.served_conns map].
      rewrite Hw. reflexivity. }
  destruct (tcp.serve_loop script) as [events r]. cbn [fst snd] in *.
  split; [intros _ _ _; exact H1 |]. split; [exact H2 | exact H3].
Qed.

End Listener.

Lemma ListenAndServe_serves_accepted_witness :
  tcp.served_conns
    (fst (tcp.ListenAndServe true true true
            [tcp.AcceptTimeout; tcp.Accepted 1%nat; tcp.AcceptTimeout; tcp.Accepted 2%nat;
             tcp.ContextDone false; tcp.Accepted 3%nat]))
  = [1; 2]%nat.
Proof.
  pose proof (ListenAndServe_serves_accepted true true true
                [tcp.AcceptTimeout; tcp.Accepted 1%nat; tcp.AcceptTimeout;
                 tcp.Accepted 2%nat; tcp.ContextDone false; tcp.Accepted 3%nat]) as H.
  cbv beta iota delta [tcp.ListenAndServe negb] in H.
  exact (proj1 H eq_refl eq_refl eq_refl).
Defined.
